(** * CyclomediaView: the street-view panel driving the Street Smart API

    A shallow embedding of the React component [CyclomediaView]
    (plugins/StreetView, Cyclomedia provider) and of its helpers
    [getErrorMessage], [EmptyView], [changeView] and [changeRecording],
    together with the effect discipline of [useEffect] the component
    relies on: the cleanup of an effect runs before the effect is run
    again for new dependencies, and once more when the component unmounts.

    JavaScript values are modelled as data: primitives, arrays, plain
    objects (finite maps from property names to values) and opaque host
    objects such as DOM elements.  Numbers are integer valued or NaN; the
    component only forwards them and tests them for truthiness.  A string
    is a sequence of 8-bit characters, one for each code unit: the strings
    of the model are the JavaScript strings whose code units are all below
    256, and positions, [length] and [indexOf] count code units. *)

From Stdlib Require Import ZArith String List Bool Lia.
From stdpp Require Import base option strings pretty gmap list.

#[local] Set Warnings "-register-all".
#[local] Open Scope Z_scope.

(** ** JavaScript values *)

Module Js.

Inductive number :=
| NaN
| Num (z : Z).

Inductive prim :=
| PUndefined
| PNull
| PBool (b : bool)
| PNum (n : number)
| PStr (s : string).

Inductive val :=
| VPrim (p : prim)
| VArr (elems : list val)
| VObj (props : gmap string val)
| VHost (ref : nat).

Inductive exn :=
| TypeError (what : string)
| Thrown (payload : val).

Inductive completion (A : Type) :=
| Normal (a : A)
| Throw (e : exn).

Arguments Normal {A} a.
Arguments Throw {A} e.

End Js.

Export Js.
Coercion VPrim : prim >-> val.

#[global] Instance number_eq_dec : EqDecision number.
Proof. solve_decision. Defined.

#[global] Instance prim_eq_dec : EqDecision prim.
Proof. solve_decision. Defined.

Abbreviation undefined := (VPrim PUndefined).
Abbreviation null := (VPrim PNull).
Abbreviation str s := (VPrim (PStr s)).
Abbreviation num z := (VPrim (PNum (Num z))).

(** [ToBoolean]. *)
Definition prim_truthy (p : prim) : bool :=
  match p with
  | PUndefined | PNull => false
  | PBool b => b
  | PNum NaN => false
  | PNum (Num z) => negb (z =? 0)
  | PStr s => negb (String.eqb s "")
  end.

Definition truthy (v : val) : bool :=
  match v with
  | VPrim p => prim_truthy p
  | _ => true
  end.

Definition nullish (v : val) : bool :=
  match v with
  | VPrim PUndefined | VPrim PNull => true
  | _ => false
  end.

(** [a ?? b] *)
Definition coalesce (a b : val) : val := if nullish a then b else a.

(** [a && b] *)
Definition js_and (a b : val) : val := if truthy a then b else a.

Definition of_option (o : option val) : val := default undefined o.

(** The code unit of [s] at position [i], as a one-character string. *)
Definition char_at (s : string) (i : nat) : val :=
  match String.get i s with
  | Some c => str (String c EmptyString)
  | None => undefined
  end.

(** [v?.name] for a property name that is not an array index: own data
    properties of objects, [length] of strings and arrays, and
    [undefined] for everything else (null and undefined included, this
    is the short-circuit of [?.]). *)
Definition opt_get (v : val) (name : string) : val :=
  match v with
  | VObj props => of_option (props !! name)
  | VArr elems =>
      if String.eqb name "length" then num (Z.of_nat (List.length elems)) else undefined
  | VPrim (PStr s) =>
      if String.eqb name "length" then num (Z.of_nat (String.length s)) else undefined
  | _ => undefined
  end.

(** [v?.[i]] for a literal index [i]. *)
Definition opt_idx (v : val) (i : nat) : val :=
  match v with
  | VObj props => of_option (props !! pretty i)
  | VArr elems => of_option (elems !! i)
  | VPrim (PStr s) => char_at s i
  | _ => undefined
  end.

(** Own enumerable properties, as copied by the spread [{...v}]. *)
Definition own_props (v : val) : gmap string val :=
  match v with
  | VObj props => props
  | VArr elems => list_to_map (imap (fun i x => (pretty i, x)) elems)
  | VPrim (PStr s) =>
      list_to_map (imap (fun i c => (pretty i, str (String c EmptyString)))
                        (list_ascii_of_string s))
  | _ => ∅
  end.

(** [String.prototype.indexOf(needle)] from position 0. *)
Definition str_indexOf (needle s : string) : Z :=
  match String.index 0 needle s with
  | Some i => Z.of_nat i
  | None => -1
  end.

(** Strict equality of an array element with a string. *)
Definition is_str (needle : string) (v : val) : bool :=
  match v with
  | VPrim (PStr s) => String.eqb s needle
  | _ => false
  end.

(** [Array.prototype.indexOf(needle)] for a string [needle]. *)
Fixpoint arr_indexOf (needle : string) (elems : list val) (from : Z) : Z :=
  match elems with
  | [] => -1
  | x :: rest => if is_str needle x then from else arr_indexOf needle rest (from + 1)
  end.

(** [v?.indexOf?.(needle)]: [None] stands for [undefined].  Strings and
    arrays inherit [indexOf] from their prototypes; an object answers
    with its own [indexOf] property, and since values are data here,
    calling one that is neither null nor undefined is a [TypeError]. *)
Definition opt_call_indexOf (v : val) (needle : string) : completion (option Z) :=
  match v with
  | VPrim (PStr s) => Normal (Some (str_indexOf needle s))
  | VArr elems => Normal (Some (arr_indexOf needle elems 0))
  | VObj props =>
      match props !! "indexOf" with
      | None => Normal None
      | Some f => if nullish f then Normal None
                  else Throw (TypeError "error.indexOf is not a function")
      end
  | _ => Normal None
  end.

(** [r >= 0] for the result of the call above ([undefined >= 0] is false). *)
Definition ge_zero (r : option Z) : bool :=
  match r with
  | Some z => 0 <=? z
  | None => false
  end.

(** ** getErrorMessage *)

(** What the alert renders: a localized [<Message msgId=... />] or the
    value handed over as it is. *)
Inductive node :=
| Message (msgId : string)
| Text (v : val).

Definition unauthorized : string :=
  "init::Loading user info failed with status code 401".

Definition getErrorMessage (error : val) : completion node :=
  match opt_call_indexOf error unauthorized with
  | Throw e => Throw e
  | Normal r =>
      if ge_zero r then Normal (Message "streetView.cyclomedia.invalidCredentials")
      else Normal (Text (coalesce (opt_get error "message") (str "Unknown error")))
  end.

(** A payload whose [message] field holds a text that contains the
    marker. *)
Definition contains (needle s : string) : Prop :=
  exists pre post, s = (pre +:+ needle +:+ post)%string.

Definition message_contains (error : val) (needle : string) : Prop :=
  exists s, opt_get error "message" = str s /\ contains needle s.

(** ** Calls that leave the component *)

Inductive EventName :=
| VIEW_CHANGE
| RECORDING_CLICK.

(** The two closures an open-image effect creates; [inst] is the run of
    the effect that created them. *)
Inductive Handler :=
| ViewChange (inst : nat)
| RecordingClick (inst : nat).

Inductive Logged :=
| LogExn (e : exn)
| LogText (prefix : string) (err : val).

Inductive Action :=
| SetPov (pov : val)
| SetLocation (location : val)
| ApiInit (api : nat) (options : val)
| ApiDestroy (api : nat) (arg : val)
| ApiOpen (api : nat) (query : val) (options : val)
| ViewerOn (viewer : nat) (event : EventName) (handler : Handler)
| ViewerOff (viewer : nat) (event : EventName) (handler : option Handler)
| ConsoleError (what : Logged).

#[global] Instance EventName_eq_dec : EqDecision EventName.
Proof. solve_decision. Defined.

#[global] Instance Handler_eq_dec : EqDecision Handler.
Proof. solve_decision. Defined.

(** Statements: they append to the log of calls and complete normally
    or abruptly. *)
Module Eff.

Definition t (A : Type) : Type := list Action -> completion A * list Action.

Definition ret {A} (a : A) : t A := fun log => (Normal a, log).

Definition bind {A B} (m : t A) (k : A -> t B) : t B :=
  fun log =>
    match m log with
    | (Normal a, log') => k a log'
    | (Throw e, log') => (Throw e, log')
    end.

Definition emit (a : Action) : t unit := fun log => (Normal tt, log ++ [a]).

Definition throw {A} (e : exn) : t A := fun log => (Throw e, log).

(** An expression, which completes normally or abruptly and calls
    nothing. *)
Definition lift {A} (c : completion A) : t A := fun log => (c, log).

(** [try { body } catch (e) { handler }] *)
Definition try_catch {A} (body : t A) (handler : exn -> t A) : t A :=
  fun log =>
    match body log with
    | (Normal a, log') => (Normal a, log')
    | (Throw e, log') => handler e log'
    end.

End Eff.

#[global] Instance eff_ret : MRet Eff.t := @Eff.ret.
#[global] Instance eff_bind : MBind Eff.t := fun A B k m => Eff.bind m k.

(** ** Parameters and destructuring *)

(** A parameter with a default value: the default stands in for
    [undefined] only. *)
Definition default_param (arg dflt : val) : val :=
  match arg with
  | VPrim PUndefined => dflt
  | _ => arg
  end.

(** [const {name} = v]: [null] and [undefined] cannot be destructured. *)
Definition destructure (v : val) (name : string) : completion val :=
  if nullish v
  then Throw (TypeError "Cannot destructure property of null or undefined")
  else Normal (opt_get v name).

(** ** The two event handlers *)

(** The parameter written [{detail} = {}]: the value of [detail].  The
    default applies to [undefined] only, and destructuring [null] is a
    [TypeError]. *)
Definition destructure_param (arg : val) : Eff.t val :=
  Eff.lift (destructure (default_param arg (VObj ∅)) "detail").

Definition changeView (_viewer : nat) (arg : val) : Eff.t unit :=
  detail ← destructure_param arg;
  let source := coalesce detail (VObj ∅) in
  heading ← Eff.lift (destructure source "yaw");
  pitch ← Eff.lift (destructure source "pitch");
  Eff.emit (SetPov (VObj {[ "heading" := heading; "pitch" := pitch ]})).

Definition changeRecording (_viewer : nat) (arg : val) : Eff.t unit :=
  detail ← destructure_param arg;
  recording ← Eff.lift (destructure (coalesce detail (VObj ∅)) "recording");
  if truthy (js_and (opt_get recording "xyz") (opt_get recording "id")) then
    Eff.emit (SetLocation (VObj {[
      "latLng" := VObj {[ "lat" := opt_idx (opt_get recording "xyz") 1;
                          "lng" := opt_idx (opt_get recording "xyz") 0 ]};
      "properties" := VObj (<["imageId" := opt_get recording "id"]> (own_props recording))
    ]}))
  else Eff.ret tt.

(** [(...args) => changeView(panoramaViewer, ...args)] and its twin. *)
Definition viewChangeHandler_run (panoramaViewer : nat) (args : list val) : Eff.t unit :=
  changeView panoramaViewer (of_option (args !! 0%nat)).

Definition recordingClickHandler_run (panoramaViewer : nat) (args : list val) : Eff.t unit :=
  changeRecording panoramaViewer (of_option (args !! 0%nat)).

(** A recording that carries a coordinate array of three elements and
    an identifier. *)
Definition carries_xyz3_and_id (recording : val) : Prop :=
  (exists x y z, opt_get recording "xyz" = VArr [x; y; z]) /\
  nullish (opt_get recording "id") = false.

(** ** Props and state of the component *)

(** The stored credentials, [{username, password}]. *)
Record Credentials := {
  cred_username : prim;
  cred_password : prim
}.

(** The library object [window.StreetSmartApi] of the iframe.  Two
    handles are the same object when their [api_id] agree.  [destroy] is
    absent for a handle without that member; otherwise it tells, for an
    argument, whether the call returns ([None]) or throws. *)
Record Api := {
  api_id : nat;
  ViewerType_PANORAMA : val;
  destroy : option (val -> option exn)
}.

(** [imageId] is [location.properties.imageId]; [initOptions] is
    [providerSettings.initOptions ?? {}]. *)
Record Props := {
  apiKey : prim;
  imageId : prim;
  mapPointVisible : prim;
  initOptions : val
}.

Record State := {
  StreetSmartApi : option Api;
  targetElement : val;
  initializing : bool;
  initialized : bool;
  reload : Z;
  error : val;
  credentials : option Credentials
}.

(** [const {username, password} = credentials ?? {}] *)
Definition username (st : State) : prim :=
  from_option cred_username PUndefined (credentials st).

Definition password (st : State) : prim :=
  from_option cred_password PUndefined (credentials st).

Definition api_val (api : option Api) : val :=
  match api with
  | Some a => VHost (api_id a)
  | None => undefined
  end.

(** ** EmptyView *)

(** The props handed to [<EmptyStreetView />]. *)
Record EmptyStreetView := {
  loading : bool;
  description : option string
}.

(** The four placeholders: zoom in, initialized and empty, initializing,
    loading the API. *)
Definition zoomIn : EmptyStreetView :=
  {| loading := false; description := Some "streetView.cyclomedia.zoomIn"%string |}.

Definition initializedEmpty : EmptyStreetView :=
  {| loading := false; description := None |}.

Definition initializingAPI : EmptyStreetView :=
  {| loading := true; description := Some "streetView.cyclomedia.initializing"%string |}.

Definition loadingAPI : EmptyStreetView :=
  {| loading := true; description := Some "streetView.cyclomedia.loadingAPI"%string |}.

Definition EmptyView (initializing initialized : bool) (StreetSmartApi : option Api)
    (mapPointVisible : prim) : option EmptyStreetView :=
  if initialized && negb (prim_truthy mapPointVisible) then Some zoomIn
  else if initialized then Some initializedEmpty
  else if initializing then Some initializingAPI
  else if negb (bool_decide (is_Some StreetSmartApi)) then Some loadingAPI
  else None.

(** ** View state *)

Definition hasCredentials (st : State) : val :=
  js_and (username st) (password st).

Definition showCredentialsForm (st : State) : bool :=
  negb (truthy (hasCredentials st)).

Definition showPanoramaViewer (p : Props) (st : State) : val :=
  js_and (js_and (js_and (js_and (api_val (StreetSmartApi st))
                                 (PBool (initialized st)))
                         (imageId p))
                 (PBool (negb (showCredentialsForm st))))
         (PBool (negb (truthy (error st)))).

Definition showEmptyView (p : Props) (st : State) : bool :=
  negb (showCredentialsForm st)
  && negb (truthy (showPanoramaViewer p st))
  && negb (truthy (error st)).

(** The elements one render builds.  [alertMessage] is the completion of
    [getErrorMessage(error)], evaluated in the render (line 259); what
    the render itself completes with is [render], below. *)
Record Rendered := {
  credentialsForm : option Credentials;
  emptyView : option EmptyStreetView;
  iframeDisplay : string;
  alertDisplay : string;
  alertMessage : completion node;
  reloadButton : bool
}.

Definition CyclomediaView (p : Props) (st : State) : Rendered :=
  {| credentialsForm := credentials st;
     emptyView :=
       if showEmptyView p st
       then EmptyView (initializing st) (initialized st) (StreetSmartApi st) (mapPointVisible p)
       else None;
     iframeDisplay := if truthy (showPanoramaViewer p st) then "block" else "none";
     alertDisplay := if truthy (error st) then "block" else "none";
     alertMessage := getErrorMessage (error st);
     reloadButton := initialized st |}.

Definition panoramaVisible (p : Props) (st : State) : Prop :=
  iframeDisplay (CyclomediaView p st) = "block"%string.


(** ** The two effects *)

(** Dependency arrays, compared with [Object.is]. *)
Abbreviation InitDeps := (option nat * prim * prim * prim * Z)%type.
Abbreviation OpenDeps := (option nat * bool * prim)%type.

(** The function an initialization effect returns: [() => {}], or the
    closure that holds the handle and the target element of its render. *)
Inductive InitCleanup :=
| InitNoop
| InitDestroy (api : Api) (target : val).

(** The function an open-image effect returns: [() => {}], or the
    closure over the three [let] variables of run [inst]. *)
Inductive OpenCleanup :=
| OpenNoop
| OpenOff (inst : nat).

(** [let panoramaViewer; let viewChangeHandler; let recordingClickHandler;] *)
Record OpenVars := {
  panoramaViewer : option nat;
  viewChangeHandler : option Handler;
  recordingClickHandler : option Handler
}.

Definition unassigned : OpenVars :=
  {| panoramaViewer := None; viewChangeHandler := None; recordingClickHandler := None |}.

(** A mounted component: props and state of the last render, what React
    remembers of each effect, the variables of every run of the
    open-image effect, the promises not settled yet, and the log of
    calls made so far. *)
Record Instance := {
  props : Props;
  state : State;
  init_hook : option (InitDeps * InitCleanup);
  open_hook : option (OpenDeps * OpenCleanup);
  open_vars : list OpenVars;
  open_pending : list nat;
  init_pending : nat;
  mounted : bool;
  uncaught : option exn;
  log : list Action
}.

Definition with_props (p : Props) (i : Instance) : Instance :=
  {| props := p; state := state i; init_hook := init_hook i; open_hook := open_hook i;
     open_vars := open_vars i; open_pending := open_pending i;
     init_pending := init_pending i; mounted := mounted i; uncaught := uncaught i;
     log := log i |}.

Definition with_state (st : State) (i : Instance) : Instance :=
  {| props := props i; state := st; init_hook := init_hook i; open_hook := open_hook i;
     open_vars := open_vars i; open_pending := open_pending i;
     init_pending := init_pending i; mounted := mounted i; uncaught := uncaught i;
     log := log i |}.

Definition with_init_hook (h : option (InitDeps * InitCleanup)) (i : Instance) : Instance :=
  {| props := props i; state := state i; init_hook := h; open_hook := open_hook i;
     open_vars := open_vars i; open_pending := open_pending i;
     init_pending := init_pending i; mounted := mounted i; uncaught := uncaught i;
     log := log i |}.

Definition with_open_hook (h : option (OpenDeps * OpenCleanup)) (i : Instance) : Instance :=
  {| props := props i; state := state i; init_hook := init_hook i; open_hook := h;
     open_vars := open_vars i; open_pending := open_pending i;
     init_pending := init_pending i; mounted := mounted i; uncaught := uncaught i;
     log := log i |}.

Definition with_open_vars (vars : list OpenVars) (i : Instance) : Instance :=
  {| props := props i; state := state i; init_hook := init_hook i; open_hook := open_hook i;
     open_vars := vars; open_pending := open_pending i;
     init_pending := init_pending i; mounted := mounted i; uncaught := uncaught i;
     log := log i |}.

Definition with_open_pending (pending : list nat) (i : Instance) : Instance :=
  {| props := props i; state := state i; init_hook := init_hook i; open_hook := open_hook i;
     open_vars := open_vars i; open_pending := pending;
     init_pending := init_pending i; mounted := mounted i; uncaught := uncaught i;
     log := log i |}.

Definition with_init_pending (n : nat) (i : Instance) : Instance :=
  {| props := props i; state := state i; init_hook := init_hook i; open_hook := open_hook i;
     open_vars := open_vars i; open_pending := open_pending i;
     init_pending := n; mounted := mounted i; uncaught := uncaught i;
     log := log i |}.

Definition with_mounted (b : bool) (i : Instance) : Instance :=
  {| props := props i; state := state i; init_hook := init_hook i; open_hook := open_hook i;
     open_vars := open_vars i; open_pending := open_pending i;
     init_pending := init_pending i; mounted := b; uncaught := uncaught i;
     log := log i |}.

Definition with_uncaught (e : option exn) (i : Instance) : Instance :=
  {| props := props i; state := state i; init_hook := init_hook i; open_hook := open_hook i;
     open_vars := open_vars i; open_pending := open_pending i;
     init_pending := init_pending i; mounted := mounted i; uncaught := e;
     log := log i |}.

Definition with_log (l : list Action) (i : Instance) : Instance :=
  {| props := props i; state := state i; init_hook := init_hook i; open_hook := open_hook i;
     open_vars := open_vars i; open_pending := open_pending i;
     init_pending := init_pending i; mounted := mounted i; uncaught := uncaught i;
     log := l |}.

(** Runs a statement on the log; an exception nobody caught is kept. *)
Definition exec (m : Eff.t unit) (i : Instance) : Instance :=
  match m (log i) with
  | (Normal _, l) => with_log l i
  | (Throw e, l) => with_uncaught (Some e) (with_log l i)
  end.

(** The state setters; React ignores them once the component is gone. *)
Definition set_state (f : State -> State) (i : Instance) : Instance :=
  if mounted i then with_state (f (state i)) i else i.

Definition setStreetSmartApi (api : option Api) (st : State) : State :=
  {| StreetSmartApi := api; targetElement := targetElement st;
     initializing := initializing st; initialized := initialized st;
     reload := reload st; error := error st; credentials := credentials st |}.

Definition setTargetElement (target : val) (st : State) : State :=
  {| StreetSmartApi := StreetSmartApi st; targetElement := target;
     initializing := initializing st; initialized := initialized st;
     reload := reload st; error := error st; credentials := credentials st |}.

Definition setInitializing (b : bool) (st : State) : State :=
  {| StreetSmartApi := StreetSmartApi st; targetElement := targetElement st;
     initializing := b; initialized := initialized st;
     reload := reload st; error := error st; credentials := credentials st |}.

Definition setInitialized (b : bool) (st : State) : State :=
  {| StreetSmartApi := StreetSmartApi st; targetElement := targetElement st;
     initializing := initializing st; initialized := b;
     reload := reload st; error := error st; credentials := credentials st |}.

Definition setReload (n : Z) (st : State) : State :=
  {| StreetSmartApi := StreetSmartApi st; targetElement := targetElement st;
     initializing := initializing st; initialized := initialized st;
     reload := n; error := error st; credentials := credentials st |}.

Definition setError (err : val) (st : State) : State :=
  {| StreetSmartApi := StreetSmartApi st; targetElement := targetElement st;
     initializing := initializing st; initialized := initialized st;
     reload := reload st; error := err; credentials := credentials st |}.

Definition setCredentials (c : option Credentials) (st : State) : State :=
  {| StreetSmartApi := StreetSmartApi st; targetElement := targetElement st;
     initializing := initializing st; initialized := initialized st;
     reload := reload st; error := error st; credentials := c |}.

(** *** Initialization *)

Definition init_deps (i : Instance) : InitDeps :=
  (api_id <$> StreetSmartApi (state i), username (state i), password (state i),
   apiKey (props i), reload (state i)).

(** The argument of [StreetSmartApi.init]; the spread of [initOptions]
    comes last and wins. *)
Definition init_options (p : Props) (st : State) : val :=
  VObj (own_props (initOptions p) ∪
        {[ "targetElement" := targetElement st;
           "username" := VPrim (username st);
           "password" := VPrim (password st);
           "apiKey" := VPrim (apiKey p);
           "loginOauth" := VPrim (PBool false);
           "srs" := str "EPSG:4326";
           "locale" := str "en-us" ]}).

(** The four inputs the guard of the effect asks for. *)
Definition init_inputs_present (p : Props) (st : State) : bool :=
  bool_decide (is_Some (StreetSmartApi st))
  && prim_truthy (username st) && prim_truthy (password st) && prim_truthy (apiKey p).

(** The body of the first [useEffect], with the cleanup it returns. *)
Definition init_effect (i : Instance) : Instance * InitCleanup :=
  match StreetSmartApi (state i) with
  | None => (i, InitNoop)
  | Some api =>
      if negb (prim_truthy (username (state i)))
         || negb (prim_truthy (password (state i)))
         || negb (prim_truthy (apiKey (props i)))
      then (i, InitNoop)
      else
        let i1 := set_state (setInitializing true) i in
        let i2 := exec (Eff.emit (ApiInit (api_id api) (init_options (props i) (state i)))) i1 in
        (with_init_pending (S (init_pending i2)) i2,
         InitDestroy api (targetElement (state i)))
  end.

(** [try { StreetSmartApi?.destroy?.({targetElement}); } catch (e) { console.error(e); }] *)
Definition init_cleanup (c : InitCleanup) : Eff.t unit :=
  match c with
  | InitNoop => mret tt
  | InitDestroy api target =>
      Eff.try_catch
        (match destroy api with
         | None => mret tt
         | Some f =>
             let arg := VObj {[ "targetElement" := target ]} in
             Eff.emit (ApiDestroy (api_id api) arg);;
             match f arg with
             | None => mret tt
             | Some e => Eff.throw e
             end
         end)
        (fun e => Eff.emit (ConsoleError (LogExn e)))
  end.

(** The two callbacks chained on the promise of [init]. *)
Definition init_then (i : Instance) : Instance :=
  set_state (setInitialized true) (set_state (setInitializing false) i).

Definition init_catch (err : val) (i : Instance) : Instance :=
  exec (Eff.emit (ConsoleError (LogText "Cyclomedia API: init: error: " err)))
       (set_state (setError err) (set_state (setInitializing false) i)).

(** *** Opening an image *)

Definition open_deps (i : Instance) : OpenDeps :=
  (api_id <$> StreetSmartApi (state i), initialized (state i), imageId (props i)).

Definition panorama_options (api : Api) (srs : string) : val :=
  let viewerType := ViewerType_PANORAMA api in
  VObj {[ "viewerType" := viewerType;
          "srs" := str srs;
          "panoramaViewer" :=
            VObj {[ "closable" := VPrim (PBool false);
                    "maximizable" := VPrim (PBool true);
                    "replace" := VPrim (PBool true);
                    "recordingsVisible" := VPrim (PBool true);
                    "navbarVisible" := VPrim (PBool true);
                    "timeTravelVisible" := VPrim (PBool true);
                    "measureTypeButtonVisible" := VPrim (PBool true);
                    "measureTypeButtonStart" := VPrim (PBool true);
                    "measureTypeButtonToggle" := VPrim (PBool true) ]} ]}.

Definition openImage (api : Api) (query : val) (srs : string) : Eff.t unit :=
  let options := panorama_options api srs in
  Eff.emit (ApiOpen (api_id api) query options).

(** The body of the second [useEffect], with the cleanup it returns.
    Each run that gets past the guard has three fresh variables. *)
Definition open_effect (i : Instance) : Instance * OpenCleanup :=
  match StreetSmartApi (state i) with
  | None => (i, OpenNoop)
  | Some api =>
      if negb (prim_truthy (imageId (props i))) || negb (initialized (state i))
      then (i, OpenNoop)
      else
        let inst := List.length (open_vars i) in
        let i1 := with_open_vars (open_vars i ++ [unassigned]) i in
        let i2 := exec (openImage api (VPrim (imageId (props i))) "EPSG:4326") i1 in
        (with_open_pending (inst :: open_pending i2) i2, OpenOff inst)
  end.

Definition open_cleanup (c : OpenCleanup) (vars : list OpenVars) : Eff.t unit :=
  match c with
  | OpenNoop => mret tt
  | OpenOff inst =>
      match vars !! inst with
      | None => mret tt
      | Some v =>
          match panoramaViewer v, viewChangeHandler v with
          | Some viewer, Some handler =>
              Eff.emit (ViewerOff viewer VIEW_CHANGE (Some handler));;
              Eff.emit (ViewerOff viewer RECORDING_CLICK (recordingClickHandler v))
          | _, _ => mret tt
          end
      end
  end.

(** What [open] resolves with: [None] for a falsy result, otherwise the
    array, whose elements are viewers or falsy.  [on] and [off] are the
    subscription calls of the viewer: they are logged, and return. *)
Abbreviation OpenResult := (option (list (option nat))).

Definition first_viewer (result : OpenResult) : option nat :=
  match result with
  | Some (Some viewer :: _) => Some viewer
  | _ => None
  end.

Definition open_then (inst : nat) (result : OpenResult) (i : Instance) : Instance :=
  match first_viewer result with
  | None => i
  | Some viewer =>
      let vars := {| panoramaViewer := Some viewer;
                     viewChangeHandler := Some (ViewChange inst);
                     recordingClickHandler := Some (RecordingClick inst) |} in
      exec (Eff.emit (ViewerOn viewer VIEW_CHANGE (ViewChange inst));;
            Eff.emit (ViewerOn viewer RECORDING_CLICK (RecordingClick inst)))
           (with_open_vars (<[inst := vars]> (open_vars i)) i)
  end.

Definition open_catch (err : val) (i : Instance) : Instance :=
  exec (Eff.emit (ConsoleError (LogText "Cyclomedia API: open: error: " err)))
       (set_state (setError err) i).

(** ** React: renders, commits and events *)

(** An effect is run on mount and whenever one of its dependencies
    differs from the one of the previous render. *)
Definition deps_changed {D C : Type} `{EqDecision D} (hook : option (D * C)) (next : D) : bool :=
  match hook with
  | None => true
  | Some (prev, _) => bool_decide (prev ≠ next)
  end.

Definition run_init_cleanup (i : Instance) : Instance :=
  match init_hook i with
  | Some (_, c) => exec (init_cleanup c) i
  | None => i
  end.

Definition run_open_cleanup (i : Instance) : Instance :=
  match open_hook i with
  | Some (_, c) => exec (open_cleanup c (open_vars i)) i
  | None => i
  end.

Definition run_init_effect (i : Instance) : Instance :=
  let '(i', c) := init_effect i in
  with_init_hook (Some (init_deps i, c)) i'.

Definition run_open_effect (i : Instance) : Instance :=
  let '(i', c) := open_effect i in
  with_open_hook (Some (open_deps i, c)) i'.

(** After a render: first the cleanups of the effects whose dependencies
    changed, in the order of the hooks, then these effects again. *)
Definition commit (i : Instance) : Instance :=
  if negb (mounted i) then i
  else
    let init_changed := deps_changed (init_hook i) (init_deps i) in
    let open_changed := deps_changed (open_hook i) (open_deps i) in
    let i1 := if init_changed then run_init_cleanup i else i in
    let i2 := if open_changed then run_open_cleanup i1 else i1 in
    let i3 := if init_changed then run_init_effect i2 else i2 in
    if open_changed then run_open_effect i3 else i3.

Definition unmount (i : Instance) : Instance :=
  if negb (mounted i) then i
  else
    with_mounted false
      (with_open_hook None
         (with_init_hook None (run_open_cleanup (run_init_cleanup i)))).

Inductive Event :=
| Render (p : Props)
| IframeLoad (target : val) (api : option Api)
| CredentialsChange (c : option Credentials)
| ReloadClick
| InitResolved
| InitRejected (err : val)
| OpenResolved (inst : nat) (result : OpenResult)
| OpenRejected (inst : nat) (err : val)
| Unmount.

(** The [onClick] of the reload button. *)
Definition reload_click (i : Instance) : Instance :=
  let reload := reload (state i) in
  set_state (setReload (reload + 1)) (set_state (setError null) i).

Definition settle (inst : nat) (i : Instance) : Instance :=
  with_open_pending (filter (fun k => k ≠ inst) (open_pending i)) i.

(** The callback an event runs, before React renders again.  The reload
    button is an element of the render whenever [initialized] holds
    (line 260), inside the alert, shown or hidden: its [onClick] has no
    test of its own.  A promise settles once. *)
Definition handle (i : Instance) (ev : Event) : Instance :=
  match ev with
  | Render p => if mounted i then with_props p i else i
  | IframeLoad target api =>
      set_state (setStreetSmartApi api) (set_state (setTargetElement target) i)
  | CredentialsChange c => set_state (setCredentials c) i
  | ReloadClick =>
      if mounted i && initialized (state i)
      then reload_click i
      else i
  | InitResolved =>
      match init_pending i with
      | O => i
      | S n => init_then (with_init_pending n i)
      end
  | InitRejected err =>
      match init_pending i with
      | O => i
      | S n => init_catch err (with_init_pending n i)
      end
  | OpenResolved inst result =>
      if bool_decide (inst ∈ open_pending i)
      then open_then inst result (settle inst i)
      else i
  | OpenRejected inst err =>
      if bool_decide (inst ∈ open_pending i)
      then open_catch err (settle inst i)
      else i
  | Unmount => i
  end.

Definition step (i : Instance) (ev : Event) : Instance :=
  match uncaught i with
  | Some _ => i
  | None =>
      match ev with
      | Unmount => unmount i
      | _ => commit (handle i ev)
      end
  end.

Definition initial (p : Props) (stored : option Credentials) : Instance :=
  {| props := p;
     state := {| StreetSmartApi := None; targetElement := undefined;
                 initializing := false; initialized := false;
                 reload := 1; error := null; credentials := stored |};
     init_hook := None; open_hook := None;
     open_vars := []; open_pending := []; init_pending := 0%nat;
     mounted := true; uncaught := None; log := [] |}.

Definition mount (p : Props) (stored : option Credentials) : Instance :=
  commit (initial p stored).

Definition run (i : Instance) (evs : list Event) : Instance :=
  fold_left step evs i.

Definition reachable (i : Instance) : Prop :=
  exists p stored evs, i = run (mount p stored) evs.

(** The calls made by [f] on top of the log of [i]. *)
Definition emitted (f : Instance -> Instance) (i : Instance) : list Action :=
  drop (List.length (log i)) (log (f i)).

(** ** What the properties below speak of *)

(** The calls a teardown of a started initialization has to make: one
    [destroy] on the handle of that initialization, with the target
    element it was started with, and a logged error when it throws. *)
Definition destroy_calls (api : Api) (target : val) : list Action :=
  match destroy api with
  | None => []
  | Some f =>
      let arg := VObj {[ "targetElement" := target ]} in
      ApiDestroy (api_id api) arg ::
      match f arg with
      | None => []
      | Some e => [ConsoleError (LogExn e)]
      end
  end.

Definition is_off (a : Action) : Prop :=
  match a with ViewerOff _ _ _ => True | _ => False end.

Definition is_open (a : Action) : Prop :=
  match a with ApiOpen _ _ _ => True | _ => False end.

Definition is_init (a : Action) : Prop :=
  match a with ApiInit _ _ => True | _ => False end.

Definition is_destroy (a : Action) : Prop :=
  match a with ApiDestroy _ _ => True | _ => False end.

Definition handler_of (event : EventName) (inst : nat) : Handler :=
  match event with
  | VIEW_CHANGE => ViewChange inst
  | RECORDING_CLICK => RecordingClick inst
  end.

(** The recording an event argument carries. *)
Definition recording_of (event : val) : val :=
  opt_get (coalesce (opt_get event "detail") (VObj ∅)) "recording".

(** The payloads that do not answer [indexOf]: neither a string nor an
    array, and no own property of that name. *)
Definition without_indexOf (error : val) : Prop :=
  match error with
  | VPrim (PStr _) | VArr _ => False
  | VObj props => props !! "indexOf"%string = None
  | _ => True
  end.

(** ** Invariants of a running component *)

(** The cleanup React holds for the initialization effect is the one
    the guard of the effect gives for the dependencies it was run with. *)
Definition init_guard (d : InitDeps) : bool :=
  let '(api, user, pass, key, _) := d in
  bool_decide (is_Some api) && prim_truthy user && prim_truthy pass && prim_truthy key.

Definition init_cleanup_matches (d : InitDeps) (c : InitCleanup) : Prop :=
  if init_guard d
  then exists api target, c = InitDestroy api target /\ d.1.1.1.1 = Some (api_id api)
  else c = InitNoop.

(** The variables of run [inst] are unassigned, or hold a viewer and the
    two handlers of this run, both subscribed on that viewer. *)
Definition vars_registered (inst : nat) (vars : OpenVars) (l : list Action) : Prop :=
  vars = unassigned \/
  exists viewer,
    vars = {| panoramaViewer := Some viewer;
              viewChangeHandler := Some (ViewChange inst);
              recordingClickHandler := Some (RecordingClick inst) |} /\
    ViewerOn viewer VIEW_CHANGE (ViewChange inst) ∈ l /\
    ViewerOn viewer RECORDING_CLICK (RecordingClick inst) ∈ l.

Record consistent (i : Instance) : Prop := {
  no_uncaught : uncaught i = None;
  init_hook_matches :
    forall d c, init_hook i = Some (d, c) -> init_cleanup_matches d c;
  unmounted_no_hooks :
    mounted i = false -> init_hook i = None /\ open_hook i = None;
  open_vars_registered :
    forall inst vars, open_vars i !! inst = Some vars -> vars_registered inst vars (log i)
}.

(** After a commit the hooks hold the dependencies of the last render. *)
Definition synced (i : Instance) : Prop :=
  mounted i = true ->
  (exists c, init_hook i = Some (init_deps i, c)) /\
  (exists c, open_hook i = Some (open_deps i, c)).

(** The calls of the two cleanups. *)
Definition init_cleanup_calls (hook : option (InitDeps * InitCleanup)) : list Action :=
  match hook with
  | Some (_, InitDestroy api target) => destroy_calls api target
  | _ => []
  end.

Definition open_cleanup_calls (hook : option (OpenDeps * OpenCleanup))
    (vars : list OpenVars) : list Action :=
  match hook with
  | Some (_, OpenOff inst) =>
      match vars !! inst with
      | Some {| panoramaViewer := Some viewer; viewChangeHandler := Some handler;
                recordingClickHandler := other |} =>
          [ViewerOff viewer VIEW_CHANGE (Some handler);
           ViewerOff viewer RECORDING_CLICK other]
      | _ => []
      end
  | _ => []
  end.

(** The calls of the two effects, and of a whole commit: the cleanups
    come before the effects. *)
Definition init_effect_calls (p : Props) (st : State) : list Action :=
  match StreetSmartApi st with
  | Some api =>
      if init_inputs_present p st then [ApiInit (api_id api) (init_options p st)] else []
  | None => []
  end.

Definition open_inputs_present (p : Props) (st : State) : bool :=
  bool_decide (is_Some (StreetSmartApi st)) && prim_truthy (imageId p) && initialized st.

Definition open_effect_calls (p : Props) (st : State) : list Action :=
  match StreetSmartApi st with
  | Some api =>
      if open_inputs_present p st
      then [ApiOpen (api_id api) (VPrim (imageId p)) (panorama_options api "EPSG:4326")]
      else []
  | None => []
  end.

Definition commit_calls (i : Instance) : list Action :=
  let init_changed := deps_changed (init_hook i) (init_deps i) in
  let open_changed := deps_changed (open_hook i) (open_deps i) in
  (if init_changed then init_cleanup_calls (init_hook i) else []) ++
  (if open_changed then open_cleanup_calls (open_hook i) (open_vars i) else []) ++
  (if init_changed then init_effect_calls (props i) (state i) else []) ++
  (if open_changed then open_effect_calls (props i) (state i) else []).

(** The calls of the callback of an event, and of a whole step. *)
Definition handle_calls (i : Instance) (ev : Event) : list Action :=
  match ev with
  | InitRejected err =>
      match init_pending i with
      | O => []
      | S _ => [ConsoleError (LogText "Cyclomedia API: init: error: " err)]
      end
  | OpenResolved inst result =>
      if bool_decide (inst ∈ open_pending i)
      then match first_viewer result with
           | Some viewer => [ViewerOn viewer VIEW_CHANGE (ViewChange inst);
                             ViewerOn viewer RECORDING_CLICK (RecordingClick inst)]
           | None => []
           end
      else []
  | OpenRejected inst err =>
      if bool_decide (inst ∈ open_pending i)
      then [ConsoleError (LogText "Cyclomedia API: open: error: " err)]
      else []
  | _ => []
  end.

Definition step_calls (i : Instance) (ev : Event) : list Action :=
  match uncaught i with
  | Some _ => []
  | None =>
      if mounted i then
        match ev with
        | Unmount =>
            init_cleanup_calls (init_hook i) ++
            open_cleanup_calls (open_hook i) (open_vars i)
        | _ => handle_calls i ev ++ commit_calls (handle i ev)
        end
      else handle_calls i ev
  end.

(** The steps that tear a panorama session down: the unmount, and every
    render for which a dependency of the open-image effect changed. *)
Definition open_teardown (i : Instance) (ev : Event) : bool :=
  mounted i &&
  match ev with
  | Unmount => true
  | _ => deps_changed (open_hook i) (open_deps (handle i ev))
  end.

(** ** Sample inputs *)

Definition demo_api : Api :=
  {| api_id := 7; ViewerType_PANORAMA := str "PANORAMA";
     destroy := Some (fun _ => None) |}.

Definition demo_credentials : option Credentials :=
  Some {| cred_username := PStr "user"; cred_password := PStr "secret" |}.

Definition demo_props : Props :=
  {| apiKey := PStr "key"; imageId := PStr "img-1";
     mapPointVisible := PBool true; initOptions := VObj ∅ |}.

(** A handle whose [destroy] throws. *)
Definition demo_throwing_api : Api :=
  {| api_id := 8; ViewerType_PANORAMA := str "PANORAMA";
     destroy := Some (fun _ => Some (Thrown (str "destroy failed"))) |}.

(** Initialized, an image selected, the map zoomed out. *)
Definition demo_zoomed_out_props : Props :=
  {| apiKey := PStr "key"; imageId := PStr "img-1";
     mapPointVisible := PBool false; initOptions := VObj ∅ |}.

Definition demo_initialized : State :=
  {| StreetSmartApi := Some demo_api; targetElement := VHost 1;
     initializing := false; initialized := true;
     reload := 1; error := null; credentials := demo_credentials |}.

(** ** The inputs of a render *)

(** [location = {}], [const {properties} = location] and
    [const {imageId} = properties ?? {}]. *)
Definition imageId_of_location (location : val) : completion val :=
  match destructure (default_param location (VObj ∅)) "properties" with
  | Throw e => Throw e
  | Normal properties => destructure (coalesce properties (VObj ∅)) "imageId"
  end.

(** [providerSettings = {}] and [providerSettings?.initOptions ?? {}]. *)
Definition initOptions_of (providerSettings : val) : val :=
  coalesce (opt_get (default_param providerSettings (VObj ∅)) "initOptions") (VObj ∅).

(** ** Counting calls *)

#[global] Instance is_init_dec (a : Action) : Decision (is_init a).
Proof. destruct a; simpl; apply _. Defined.

#[global] Instance is_destroy_dec (a : Action) : Decision (is_destroy a).
Proof. destruct a; simpl; apply _. Defined.

#[global] Instance is_open_dec (a : Action) : Decision (is_open a).
Proof. destruct a; simpl; apply _. Defined.

(** The fixed fields of the argument of [init], before the options of
    the host are spread over them. *)
Definition fixed_init_options (p : Props) (st : State) : gmap string val :=
  {[ "targetElement" := targetElement st;
     "username" := VPrim (username st);
     "password" := VPrim (password st);
     "apiKey" := VPrim (apiKey p);
     "loginOauth" := VPrim (PBool false);
     "srs" := str "EPSG:4326";
     "locale" := str "en-us" ]}.

(** Every [destroy] in a log comes after an [init] on the same handle. *)
Definition destroys_follow_inits (l : list Action) : Prop :=
  forall before api arg after,
    l = before ++ ApiDestroy api arg :: after ->
    exists options, ApiInit api options ∈ before.

(** The cleanup React holds destroys an initialization that was made. *)
Definition init_hook_started (i : Instance) : Prop :=
  forall d api target,
    init_hook i = Some (d, InitDestroy api target) ->
    exists options, ApiInit (api_id api) options ∈ log i.

(** ** exportableTableWidget: the export tool of a table widget

    Two versions of the enhancer are in the file.  Both append one menu
    item to [widgetTools]; they differ in when the dataset is looked up
    and in what the click does with the answer.  [search] is the text the
    template puts for [layer.name]. *)

Module Widget.

Inductive Call :=
| Fetch (url : string)
| WindowOpen (url : val) (target : string)
| ConsoleLog (args : list val).

Record MenuItem := {
  glyph : string;
  glyphClassName : string;
  target : string;
  textId : string;
  disabled : bool
}.

(** A tool of the menu: one that was there, or the export item. *)
Inductive Tool (T : Type) :=
| Existing (tool : T)
| Export (item : MenuItem).

Arguments Existing {T} tool.
Arguments Export {T} item.

Definition datasetUrl (search : string) : string :=
  ("/api/v2/resources?include[]=executions&filter{metadata_only}=false&filter{resource_type.in}=dataset&search="
   +:+ search +:+ "&search_fields=alternate")%string.

(** [v.name] and [v[i]] without [?.]: a [TypeError] on [null] and
    [undefined]. *)
Definition get (v : val) (name : string) : completion val :=
  if nullish v then Throw (TypeError "Cannot read properties of null or undefined")
  else Normal (opt_get v name).

Definition get_idx (v : val) (i : nat) : completion val :=
  if nullish v then Throw (TypeError "Cannot read properties of null or undefined")
  else Normal (opt_idx v i).

(** [x === 1] *)
Definition is_one (x : val) : bool :=
  match x with
  | VPrim (PNum (Num 1)) => true
  | _ => false
  end.

(** [[...widgetTools, item]] with [widgetTools = []] by default. *)
Definition withTool {T : Type} (widgetTools : option (list T)) (item : MenuItem)
    : list (Tool T) :=
  (Existing <$> default [] widgetTools) ++ [Export item].

(** *** The version that looks the dataset up on the click *)

Definition item_on_click : MenuItem :=
  {| glyph := "download"; glyphClassName := "exportCSV"; target := "menu";
     textId := "widgets.widget.menu.downloadData"; disabled := false |}.

Definition props_on_click {T : Type} (widgetTools : option (list T)) : list (Tool T) :=
  withTool widgetTools item_on_click.

(** The click: [data_is_title] is the outcome of [data === title]. *)
Definition onClick (data_is_title : bool) (search : string) : list Call :=
  (if data_is_title then [ConsoleLog [str "data is title"]] else []) ++
  [Fetch (datasetUrl search)].

(** The callback chained on [response.json()]: the calls it makes, and
    how it completes. *)
Definition onResponse (resData : val) : list Call * completion unit :=
  match get resData "total" with
  | Throw e => ([], Throw e)
  | Normal total =>
      if is_one total then
        let logged := [ConsoleLog [str "resData"; resData]] in
        match get resData "resources" with
        | Throw e => (logged, Throw e)
        | Normal resources =>
            match get_idx resources 0 with
            | Throw e => (logged, Throw e)
            | Normal first =>
                match get first "download_file_url" with
                | Throw e => (logged, Throw e)
                | Normal downloadFileUrl =>
                    (logged ++ [ConsoleLog [str "downloadFileUrl"; downloadFileUrl];
                                WindowOpen downloadFileUrl "_blank"],
                     Normal tt)
                end
            end
        end
      else ([], Normal tt)
  end.

(** *** The version with [downloadUrl] *)

(** [downloadUrl(layer)]: the request is sent, and the function returns
    before any answer. *)
Definition downloadUrl (search : string) : list Call * string :=
  ([Fetch (datasetUrl search)], ""%string).

(** The callback of [downloadUrl]: what it returns goes to the promise. *)
Definition downloadUrl_then (resData : val) : completion val :=
  match get resData "total" with
  | Throw e => Throw e
  | Normal total =>
      if is_one total then
        match get resData "resources" with
        | Throw e => Throw e
        | Normal resources =>
            match get_idx resources 0 with
            | Throw e => Throw e
            | Normal first => get first "download_file_url"
            end
        end
      else Normal undefined
  end.

(** The props of a render: the calls of [downloadUrl(layer) === ""] and
    the tools. *)
Definition props_with_downloadUrl {T : Type} (widgetTools : option (list T))
    (search : string) : list Call * list (Tool T) :=
  let '(calls, url) := downloadUrl search in
  (calls,
   withTool widgetTools
     {| glyph := "download"; glyphClassName := "exportCSV"; target := "menu";
        textId := "widgets.widget.menu.downloadData";
        disabled := String.eqb url "" |}).

(** [const url = downloadUrl(layer); if (!!url) window.open(url, "_blank")] *)
Definition onClick_downloadUrl (search : string) : list Call :=
  let '(calls, url) := downloadUrl search in
  calls ++ (if truthy (str url) then [WindowOpen (str url) "_blank"] else []).

Definition is_window_open (c : Call) : Prop :=
  match c with WindowOpen _ _ => True | _ => False end.

#[global] Instance is_window_open_dec (c : Call) : Decision (is_window_open c).
Proof. destruct c; simpl; apply _. Defined.

End Widget.

(** * Properties *)

(** ** Strings: [indexOf] finds a text exactly when it occurs *)

Lemma append_cons (c : Ascii.ascii) (s t : string) :
  (String c s +:+ t)%string = String c (s +:+ t)%string.
Proof. reflexivity. Qed.

Lemma append_empty (t : string) : (""%string +:+ t)%string = t.
Proof. reflexivity. Qed.

Lemma substring_head_split (n : nat) : forall s t : string,
  String.substring 0 n s = t -> String.length t = n ->
  exists post, s = (t +:+ post)%string.
Proof.
  induction n as [|n IH]; intros s t Hsub Hlen.
  - destruct t; [|discriminate]. exists s. reflexivity.
  - destruct s as [|c s]; simpl in Hsub; subst t; [discriminate|].
    simpl in Hlen. injection Hlen as Hlen.
    destruct (IH s _ eq_refl Hlen) as [post Hpost].
    exists post. rewrite append_cons. congruence.
Qed.

Lemma substring_split (m : nat) : forall (n : nat) (s t : string),
  String.substring m n s = t -> String.length t = n ->
  exists pre post, s = (pre +:+ t +:+ post)%string.
Proof.
  induction m as [|m IH]; intros n s t Hsub Hlen.
  - destruct (substring_head_split n s t Hsub Hlen) as [post ->].
    exists ""%string, post. reflexivity.
  - destruct s as [|c s].
    + simpl in Hsub. subst t. simpl in Hlen. subst n.
      exists ""%string, ""%string. reflexivity.
    + simpl in Hsub. destruct (IH n s t Hsub Hlen) as (pre & post & ->).
      exists (String c pre), post. reflexivity.
Qed.

Lemma substring_head_app (t post : string) :
  String.substring 0 (String.length t) (t +:+ post) = t.
Proof.
  induction t as [|c t IH].
  - rewrite append_empty. destruct post; reflexivity.
  - rewrite append_cons. simpl. now rewrite IH.
Qed.

Lemma substring_app (pre t post : string) :
  String.substring (String.length pre) (String.length t) (pre +:+ t +:+ post) = t.
Proof.
  induction pre as [|c pre IH].
  - rewrite append_empty. apply substring_head_app.
  - rewrite append_cons. simpl. exact IH.
Qed.

Lemma index_contains (needle s : string) :
  needle <> ""%string ->
  (exists m, String.index 0 needle s = Some m) <-> contains needle s.
Proof.
  intros Hne. split.
  - intros [m Hm]. apply String.index_correct1 in Hm.
    now apply substring_split in Hm.
  - intros (pre & post & ->).
    destruct (String.index 0 needle (pre +:+ needle +:+ post)) as [m|] eqn:Hidx.
    + now exists m.
    + exfalso.
      apply (String.index_correct3 0 (String.length pre) _ _ Hidx Hne); [lia|].
      apply substring_app.
Qed.

Lemma str_indexOf_ge_zero (needle s : string) :
  needle <> ""%string ->
  ge_zero (Some (str_indexOf needle s)) = true <-> contains needle s.
Proof.
  intros Hne. rewrite <- (index_contains needle s Hne).
  unfold ge_zero, str_indexOf.
  destruct (String.index 0 needle s) as [m|].
  - split; [eauto|]. intros _. apply Z.leb_le. lia.
  - split; [discriminate|]. now intros [m Hm].
Qed.

(** ** getErrorMessage *)

(** C1, as written, fails: an error object whose [message] field is the
    text of the unauthorized failure is answered with that very text, not
    with the localized message. *)
Lemma getErrorMessage_message_field_counterexample :
  message_contains (VObj {[ "message"%string := str unauthorized ]}) unauthorized /\
  getErrorMessage (VObj {[ "message"%string := str unauthorized ]})
    = Normal (Text (str unauthorized)) /\
  getErrorMessage (VObj {[ "message"%string := str unauthorized ]})
    <> Normal (Message "streetView.cyclomedia.invalidCredentials").
Proof.
  split; [|split].
  - exists unauthorized. split; [reflexivity|].
    exists ""%string, ""%string. reflexivity.
  - reflexivity.
  - discriminate.
Qed.

(** C1 (amended): a payload that is itself a string containing the text
    "init::Loading user info failed with status code 401" yields the
    localized invalid-credentials message, and a string without it yields
    "Unknown error"; a payload that does not answer [indexOf] yields its
    [message] field, or "Unknown error" when that field is null or
    undefined. *)
Theorem getErrorMessage_by_payload (error : val) :
  (forall s, error = str s ->
     (contains unauthorized s ->
        getErrorMessage error = Normal (Message "streetView.cyclomedia.invalidCredentials")) /\
     (~ contains unauthorized s ->
        getErrorMessage error = Normal (Text (str "Unknown error")))) /\
  (without_indexOf error ->
     (nullish (opt_get error "message") = false ->
        getErrorMessage error = Normal (Text (opt_get error "message"))) /\
     (nullish (opt_get error "message") = true ->
        getErrorMessage error = Normal (Text (str "Unknown error")))).
Proof.
  assert (Hne : unauthorized <> ""%string) by discriminate.
  split.
  - intros s ->. unfold getErrorMessage. cbn [opt_call_indexOf].
    pose proof (str_indexOf_ge_zero unauthorized s Hne) as Hiff.
    destruct (ge_zero (Some (str_indexOf unauthorized s))).
    + split; [reflexivity|]. intros Hno. exfalso. apply Hno, Hiff. reflexivity.
    + split; [|reflexivity]. intros Hyes. apply Hiff in Hyes. discriminate.
  - intros Hno. unfold getErrorMessage, coalesce.
    destruct error as [[| |b|n|s]|elems|props|ref]; simpl in Hno |- *;
      try contradiction; try (split; [discriminate|reflexivity]).
    rewrite Hno. simpl.
    destruct (nullish (of_option (props !! "message"%string)));
      split; intros; congruence.
Qed.

Lemma getErrorMessage_by_payload_witness :
  getErrorMessage (str "init::Loading user info failed with status code 401")
    = Normal (Message "streetView.cyclomedia.invalidCredentials") /\
  getErrorMessage (VObj {[ "message"%string := str "Network Error" ]})
    = Normal (Text (str "Network Error")) /\
  getErrorMessage (VObj ∅) = Normal (Text (str "Unknown error")).
Proof.
  split; [|split].
  - destruct (getErrorMessage_by_payload (str unauthorized)) as [Hstr _].
    apply (Hstr unauthorized eq_refl).
    exists ""%string, ""%string. reflexivity.
  - destruct (getErrorMessage_by_payload
                (VObj {[ "message"%string := str "Network Error" ]})) as [_ Hobj].
    apply Hobj; reflexivity.
  - destruct (getErrorMessage_by_payload (VObj ∅)) as [_ Hobj].
    apply Hobj; reflexivity.
Defined.

(** ** The event handlers *)

Lemma truthy_js_and (a b : val) : truthy (js_and a b) = truthy a && truthy b.
Proof. unfold js_and. destruct (truthy a) eqn:Ha; [reflexivity|exact Ha]. Qed.

Lemma coalesce_object_not_nullish (v : val) : nullish (coalesce v (VObj ∅)) = false.
Proof. unfold coalesce. destruct (nullish v) eqn:Hv; [reflexivity|exact Hv]. Qed.

Lemma destructure_coalesce (v : val) (name : string) :
  destructure (coalesce v (VObj ∅)) name = Normal (opt_get (coalesce v (VObj ∅)) name).
Proof. unfold destructure. now rewrite coalesce_object_not_nullish. Qed.

Lemma destructure_param_not_null (arg : val) (log0 : list Action) :
  arg <> null ->
  destructure_param arg log0 = (Normal (opt_get arg "detail"), log0).
Proof.
  intros Hnn. destruct arg as [[| |b|n|s]|elems|props|ref];
    try contradiction; reflexivity.
Qed.

Lemma first_arg_not_null (args : list val) :
  args !! 0%nat <> Some null -> of_option (args !! 0%nat) <> null.
Proof.
  destruct args as [|a rest]; simpl; [discriminate|].
  intros Hne ->. now apply Hne.
Qed.

Lemma changeView_spec (viewer : nat) (arg : val) (log0 : list Action) :
  arg <> null ->
  changeView viewer arg log0
  = (Normal tt,
     log0 ++ [SetPov (VObj {[
        "heading"%string := opt_get (coalesce (opt_get arg "detail") (VObj ∅)) "yaw";
        "pitch"%string := opt_get (coalesce (opt_get arg "detail") (VObj ∅)) "pitch" ]})]).
Proof.
  intros Hnn.
  unfold changeView, mbind, eff_bind, Eff.bind.
  rewrite (destructure_param_not_null arg log0 Hnn).
  unfold Eff.lift. rewrite !destructure_coalesce. reflexivity.
Qed.

Lemma changeRecording_spec (viewer : nat) (arg : val) (log0 : list Action) :
  arg <> null ->
  changeRecording viewer arg log0
  = if truthy (opt_get (recording_of arg) "xyz") && truthy (opt_get (recording_of arg) "id")
    then (Normal tt,
          log0 ++ [SetLocation (VObj {[
            "latLng"%string :=
               VObj {[ "lat"%string := opt_idx (opt_get (recording_of arg) "xyz") 1;
                       "lng"%string := opt_idx (opt_get (recording_of arg) "xyz") 0 ]};
            "properties"%string :=
               VObj (<["imageId"%string := opt_get (recording_of arg) "id"]>
                       (own_props (recording_of arg))) ]})])
    else (Normal tt, log0).
Proof.
  intros Hnn.
  unfold changeRecording, mbind, eff_bind, Eff.bind.
  rewrite (destructure_param_not_null arg log0 Hnn).
  unfold Eff.lift. rewrite destructure_coalesce.
  fold (recording_of arg). rewrite truthy_js_and.
  destruct (truthy (opt_get (recording_of arg) "xyz") && truthy (opt_get (recording_of arg) "id"));
    reflexivity.
Qed.

(** Only objects have an [xyz] property. *)
Lemma truthy_xyz_object (recording : val) :
  truthy (opt_get recording "xyz") = true -> exists props, recording = VObj props.
Proof.
  destruct recording as [[| |b|n|s]|elems|props|ref]; simpl; try discriminate; eauto.
Qed.

(** A [null] in the place of the event is not destructured. *)
Remark changeView_null_throws (viewer : nat) (log0 : list Action) :
  exists e, changeView viewer null log0 = (Throw e, log0).
Proof. eexists. reflexivity. Qed.

(** C2, as written, fails: a recording with two coordinates and an
    identifier is forwarded all the same. *)
Lemma recordingClick_two_coordinates_counterexample :
  recordingClickHandler_run 0%nat
    [VObj {[ "detail"%string := VObj {[ "recording"%string :=
       VObj {[ "xyz"%string := VArr [num 10; num 20]; "id"%string := str "img-1" ]} ]} ]}] []
  = (Normal tt,
     [SetLocation (VObj {[
        "latLng"%string := VObj {[ "lat"%string := num 20; "lng"%string := num 10 ]};
        "properties"%string :=
           VObj {[ "xyz"%string := VArr [num 10; num 20]; "id"%string := str "img-1";
                   "imageId"%string := str "img-1" ]} ]})]) /\
  ~ carries_xyz3_and_id
      (VObj {[ "xyz"%string := VArr [num 10; num 20]; "id"%string := str "img-1" ]}).
Proof.
  split.
  - vm_compute. reflexivity.
  - intros [(x & y & z & Hxyz) _]. vm_compute in Hxyz. discriminate.
Qed.

(** C2 (amended): the recording-click handler calls [setLocation] exactly
    once if and only if the [xyz] and the [id] of the event detail's
    recording are both truthy, as they are for a 3-element coordinate
    array with a non-empty identifier; the forwarded Location has
    [latLng.lat] = [xyz[1]], [latLng.lng] = [xyz[0]] and, as properties,
    the recording object with its [id] copied into [imageId]; a recording
    that lacks [xyz] or [id] produces no call. *)
Theorem recordingClick_forwards_location (viewer : nat) (args : list val)
    (log0 : list Action) :
  args !! 0%nat <> Some null ->
  let recording := recording_of (of_option (args !! 0%nat)) in
  let xyz := opt_get recording "xyz" in
  let id := opt_get recording "id" in
  (truthy xyz = true /\ truthy id = true ->
     exists props, recording = VObj props /\
     recordingClickHandler_run viewer args log0
     = (Normal tt,
        log0 ++ [SetLocation (VObj {[
           "latLng"%string := VObj {[ "lat"%string := opt_idx xyz 1;
                                      "lng"%string := opt_idx xyz 0 ]};
           "properties"%string := VObj (<["imageId"%string := id]> props) ]})])) /\
  (truthy xyz = false \/ truthy id = false ->
     recordingClickHandler_run viewer args log0 = (Normal tt, log0)) /\
  (nullish xyz = true \/ nullish id = true ->
     recordingClickHandler_run viewer args log0 = (Normal tt, log0)) /\
  (forall x y z, xyz = VArr [x; y; z] ->
     truthy xyz = true /\ opt_idx xyz 1 = y /\ opt_idx xyz 0 = x).
Proof.
  intros Hnn recording xyz id.
  apply first_arg_not_null in Hnn.
  pose proof (changeRecording_spec viewer _ log0 Hnn) as Hrun.
  fold recording in Hrun. fold xyz in Hrun. fold id in Hrun.
  unfold recordingClickHandler_run.
  assert (Hfalsy : truthy xyz = false \/ truthy id = false ->
            changeRecording viewer (of_option (args !! 0%nat)) log0 = (Normal tt, log0)).
  { intros [H|H]; rewrite Hrun, H; [reflexivity|]. now rewrite andb_false_r. }
  repeat split.
  - intros [Hx Hi]. destruct (truthy_xyz_object recording Hx) as [props Hprops].
    exists props. split; [exact Hprops|].
    rewrite Hrun, Hx, Hi. simpl. subst recording. rewrite Hprops. reflexivity.
  - exact Hfalsy.
  - intros [H|H]; apply Hfalsy; [left|right];
      [destruct xyz as [[]| | |]|destruct id as [[]| | |]]; try discriminate; reflexivity.
  - rewrite H. reflexivity.
  - rewrite H. reflexivity.
  - rewrite H. reflexivity.
Qed.

Lemma recordingClick_forwards_location_witness :
  recordingClickHandler_run 3%nat
    [VObj {[ "detail"%string := VObj {[ "recording"%string :=
       VObj {[ "xyz"%string := VArr [num 10; num 20; num 5];
               "id"%string := str "img-1" ]} ]} ]}] []
  = (Normal tt,
     [SetLocation (VObj {[
        "latLng"%string := VObj {[ "lat"%string := num 20; "lng"%string := num 10 ]};
        "properties"%string :=
           VObj {[ "xyz"%string := VArr [num 10; num 20; num 5];
                   "id"%string := str "img-1";
                   "imageId"%string := str "img-1" ]} ]})]).
Proof.
  destruct (recordingClick_forwards_location 3%nat
    [VObj {[ "detail"%string := VObj {[ "recording"%string :=
       VObj {[ "xyz"%string := VArr [num 10; num 20; num 5];
               "id"%string := str "img-1" ]} ]} ]}] []) as (Hcall & _).
  - simpl. discriminate.
  - destruct Hcall as (props & Hprops & Hrun); [split; reflexivity|].
    rewrite Hrun. vm_compute in Hprops. injection Hprops as <-.
    vm_compute. reflexivity.
Defined.

(** C9: a view-change event whose detail is [{yaw: 45, pitch: -10}]
    produces exactly one call, [setPov({heading: 45, pitch: -10})]. *)
Theorem viewChange_yaw_45_pitch_minus_10 (viewer : nat) (event : val) (rest : list val)
    (log0 : list Action) :
  opt_get event "detail" = VObj {[ "yaw"%string := num 45; "pitch"%string := num (-10) ]} ->
  viewChangeHandler_run viewer (event :: rest) log0
  = (Normal tt,
     log0 ++ [SetPov (VObj {[ "heading"%string := num 45; "pitch"%string := num (-10) ]})]).
Proof.
  intros Hdetail. unfold viewChangeHandler_run. simpl.
  rewrite changeView_spec.
  - rewrite Hdetail. reflexivity.
  - intros ->. discriminate Hdetail.
Qed.

Lemma viewChange_yaw_45_pitch_minus_10_witness :
  viewChangeHandler_run 3%nat
    [VObj {[ "detail"%string :=
               VObj {[ "yaw"%string := num 45; "pitch"%string := num (-10) ]} ]}] []
  = (Normal tt,
     [SetPov (VObj {[ "heading"%string := num 45; "pitch"%string := num (-10) ]})]).
Proof.
  apply (viewChange_yaw_45_pitch_minus_10 3%nat
           (VObj {[ "detail"%string :=
                      VObj {[ "yaw"%string := num 45; "pitch"%string := num (-10) ]} ]})
           [] []).
  reflexivity.
Defined.

(** C10, as written, fails: when [null] is delivered in the place of
    the event, the parameter [{detail} = {}] cannot be destructured, the
    handler throws and [setPov] is not called. *)
Lemma viewChange_null_event_counterexample :
  viewChangeHandler_run 3%nat [null] []
  = (Throw (TypeError "Cannot destructure property of null or undefined"), []) /\
  forall pov, viewChangeHandler_run 3%nat [null] [] <> (Normal tt, [SetPov pov]).
Proof. split; [reflexivity|discriminate]. Qed.

(** C10 (amended): for every view-change event delivered to the handler
    other than [null] (a missing argument included), the handler
    completes normally with exactly one call of [setPov]; heading and
    pitch are the [yaw] and [pitch] of the detail, and [undefined] when
    the event has no detail or the detail lacks them.  When [null] is
    delivered in the place of the event the handler throws a [TypeError]
    and calls nothing. *)
Theorem viewChange_once_never_throws (viewer : nat) (args : list val)
    (log0 : list Action) :
  let detail := opt_get (of_option (args !! 0%nat)) "detail" in
  (args !! 0%nat <> Some null ->
   exists heading pitch,
     viewChangeHandler_run viewer args log0
     = (Normal tt,
        log0 ++ [SetPov (VObj {[ "heading"%string := heading; "pitch"%string := pitch ]})]) /\
     (nullish detail = true -> heading = undefined /\ pitch = undefined) /\
     (nullish detail = false ->
        heading = opt_get detail "yaw" /\ pitch = opt_get detail "pitch") /\
     (forall props, detail = VObj props ->
        (props !! "yaw"%string = None -> heading = undefined) /\
        (props !! "pitch"%string = None -> pitch = undefined))) /\
  (args !! 0%nat = Some null ->
   exists what, viewChangeHandler_run viewer args log0 = (Throw (TypeError what), log0)).
Proof.
  intros detail. split.
  - intros Hnn. apply first_arg_not_null in Hnn.
    unfold viewChangeHandler_run. rewrite (changeView_spec viewer _ log0 Hnn).
    fold detail. do 2 eexists. split; [reflexivity|].
    unfold coalesce. split; [|split].
    + intros ->. split; reflexivity.
    + intros ->. split; reflexivity.
    + intros props ->. simpl. split; intros ->; reflexivity.
  - intros Hnull. unfold viewChangeHandler_run. rewrite Hnull.
    eexists. reflexivity.
Qed.

Lemma viewChange_once_never_throws_witness :
  (exists pov, viewChangeHandler_run 3%nat [] [] = (Normal tt, [SetPov pov])) /\
  (exists pov, viewChangeHandler_run 3%nat [VObj ∅] [] = (Normal tt, [SetPov pov])) /\
  (exists pov, viewChangeHandler_run 3%nat
                 [VObj {[ "detail"%string := VObj {[ "zoom"%string := num 2 ]} ]}] []
               = (Normal tt, [SetPov pov])) /\
  (exists what, viewChangeHandler_run 3%nat [null; VObj ∅] []
                = (Throw (TypeError what), [])).
Proof.
  split; [|split; [|split]].
  - destruct (proj1 (viewChange_once_never_throws 3%nat [] [])) as (h & p & Hrun & _).
    + simpl. discriminate.
    + eexists. exact Hrun.
  - destruct (proj1 (viewChange_once_never_throws 3%nat [VObj ∅] []))
      as (h & p & Hrun & _).
    + simpl. discriminate.
    + eexists. exact Hrun.
  - destruct (proj1 (viewChange_once_never_throws 3%nat
                [VObj {[ "detail"%string := VObj {[ "zoom"%string := num 2 ]} ]}] []))
      as (h & p & Hrun & _).
    + simpl. discriminate.
    + eexists. exact Hrun.
  - apply (proj2 (viewChange_once_never_throws 3%nat [null; VObj ∅] [])).
    reflexivity.
Defined.

(** ** What is shown *)

Lemma truthy_api_val (api : option Api) :
  truthy (api_val api) = bool_decide (is_Some api).
Proof. destruct api; reflexivity. Qed.

Lemma truthy_showPanoramaViewer (p : Props) (st : State) :
  truthy (showPanoramaViewer p st)
  = bool_decide (is_Some (StreetSmartApi st)) && initialized st && prim_truthy (imageId p)
    && (prim_truthy (username st) && prim_truthy (password st))
    && negb (truthy (error st)).
Proof.
  unfold showPanoramaViewer, showCredentialsForm, hasCredentials.
  rewrite !truthy_js_and, truthy_api_val. simpl. rewrite negb_involutive.
  reflexivity.
Qed.

(** C6: the panorama viewer is visible if and only if the ApiHandle is
    present, the component is initialized, an imageId is present, both
    credential fields are present, and no error is set. *)
Theorem panorama_visible_iff (p : Props) (st : State) :
  panoramaVisible p st <->
  is_Some (StreetSmartApi st) /\
  initialized st = true /\
  prim_truthy (imageId p) = true /\
  (prim_truthy (username st) = true /\ prim_truthy (password st) = true) /\
  truthy (error st) = false.
Proof.
  unfold panoramaVisible, CyclomediaView. cbn [iframeDisplay].
  pose proof (truthy_showPanoramaViewer p st) as Hshow.
  destruct (truthy (showPanoramaViewer p st)); symmetry in Hshow.
  - rewrite !andb_true_iff, negb_true_iff, bool_decide_eq_true in Hshow.
    split; [intros _|reflexivity]. tauto.
  - split; [discriminate|]. intros (Ha & Hi & Hid & (Hu & Hp) & He). exfalso.
    rewrite Hi, Hid, Hu, Hp, He in Hshow. rewrite bool_decide_true in Hshow by exact Ha.
    discriminate.
Qed.

Lemma showEmptyView_eq (p : Props) (st : State) :
  prim_truthy (username st) = true -> prim_truthy (password st) = true ->
  truthy (error st) = false ->
  showEmptyView p st
  = negb (bool_decide (is_Some (StreetSmartApi st)) && initialized st
          && prim_truthy (imageId p)).
Proof.
  intros Hu Hp He. unfold showEmptyView.
  rewrite truthy_showPanoramaViewer.
  unfold showCredentialsForm, hasCredentials. rewrite truthy_js_and. simpl.
  rewrite Hu, Hp, He. simpl. now rewrite !andb_true_r.
Qed.

(** C7, as written, fails: with credentials, no error, the component
    initialized and the map point not visible, an image that is selected
    is shown in the panorama viewer and no "zoom in" is rendered. *)
Lemma zoom_in_hidden_by_viewer_counterexample :
  prim_truthy (username demo_initialized) = true /\
  prim_truthy (password demo_initialized) = true /\
  truthy (error demo_initialized) = false /\
  initialized demo_initialized = true /\
  prim_truthy (mapPointVisible demo_zoomed_out_props) = false /\
  emptyView (CyclomediaView demo_zoomed_out_props demo_initialized) = None /\
  emptyView (CyclomediaView demo_zoomed_out_props demo_initialized) <> Some zoomIn /\
  panoramaVisible demo_zoomed_out_props demo_initialized.
Proof.
  repeat split; try reflexivity. discriminate.
Qed.

(** C7 (amended): with credentials present and no error, the empty state
    is "loading API" when the ApiHandle is null and nothing is initialized
    or initializing; "initializing" when the ApiHandle is present,
    initialization is in progress and not initialized yet; "zoom in" when
    initialized, mapPointVisible is false and the ApiHandle or the imageId
    is absent; and with the ApiHandle present, Initialized and an imageId
    present, the panorama viewer is visible and no empty state is
    rendered. *)
Theorem empty_state_variants (p : Props) (st : State) :
  prim_truthy (username st) = true ->
  prim_truthy (password st) = true ->
  truthy (error st) = false ->
  (StreetSmartApi st = None -> initialized st = false -> initializing st = false ->
     emptyView (CyclomediaView p st) = Some loadingAPI) /\
  (is_Some (StreetSmartApi st) -> initializing st = true -> initialized st = false ->
     emptyView (CyclomediaView p st) = Some initializingAPI) /\
  (initialized st = true -> prim_truthy (mapPointVisible p) = false ->
     StreetSmartApi st = None \/ prim_truthy (imageId p) = false ->
     emptyView (CyclomediaView p st) = Some zoomIn) /\
  (is_Some (StreetSmartApi st) -> initialized st = true ->
     prim_truthy (imageId p) = true ->
     panoramaVisible p st /\ emptyView (CyclomediaView p st) = None).
Proof.
  intros Hu Hp He.
  pose proof (showEmptyView_eq p st Hu Hp He) as Hshow.
  unfold CyclomediaView; cbn [emptyView]. rewrite Hshow.
  split; [|split; [|split]].
  - intros Ha Hi Hg. rewrite Ha, Hi. simpl. unfold EmptyView. rewrite Hg. reflexivity.
  - intros Ha Hg Hi. rewrite Hi, andb_false_r. simpl.
    unfold EmptyView. rewrite Hg. reflexivity.
  - intros Hi Hm [Ha|Hid].
    + rewrite Ha. simpl. unfold EmptyView. rewrite Hi, Hm. reflexivity.
    + rewrite Hid, andb_false_r. simpl. unfold EmptyView. rewrite Hi, Hm. reflexivity.
  - intros Ha Hi Hid. split.
    + unfold panoramaVisible, CyclomediaView; cbn [iframeDisplay].
      rewrite truthy_showPanoramaViewer, Hi, Hid, Hu, Hp, He.
      rewrite bool_decide_true by exact Ha. reflexivity.
    + rewrite Hi, Hid, bool_decide_true by exact Ha. reflexivity.
Qed.

Lemma empty_state_variants_witness :
  emptyView (CyclomediaView demo_props (state (initial demo_props demo_credentials)))
  = Some loadingAPI.
Proof.
  apply (proj1 (empty_state_variants demo_props
                  (state (initial demo_props demo_credentials))
                  eq_refl eq_refl eq_refl)); reflexivity.
Defined.

(** ** The effects, one phase at a time *)

Lemma exec_normal (m : Eff.t unit) (i : Instance) (acts : list Action) :
  m (log i) = (Normal tt, log i ++ acts) -> exec m i = with_log (log i ++ acts) i.
Proof. intros H. unfold exec. now rewrite H. Qed.

Lemma exec_emit (a : Action) (i : Instance) :
  exec (Eff.emit a) i = with_log (log i ++ [a]) i.
Proof. reflexivity. Qed.

Lemma exec_emit2 (a b : Action) (i : Instance) :
  exec (Eff.emit a;; Eff.emit b) i = with_log (log i ++ [a; b]) i.
Proof.
  unfold exec, mbind, eff_bind, Eff.bind, Eff.emit.
  now rewrite <- app_assoc.
Qed.

Lemma init_cleanup_normal (c : InitCleanup) (log0 : list Action) (d : InitDeps) :
  init_cleanup c log0 = (Normal tt, log0 ++ init_cleanup_calls (Some (d, c))).
Proof.
  destruct c as [|api target]; simpl.
  - unfold mret, eff_ret, Eff.ret. now rewrite app_nil_r.
  - unfold Eff.try_catch, destroy_calls.
    destruct (destroy api) as [f|].
    + unfold mbind, eff_bind, Eff.bind, Eff.emit.
      destruct (f _) as [e|]; simpl.
      * now rewrite <- app_assoc.
      * reflexivity.
    + unfold mret, eff_ret, Eff.ret. now rewrite app_nil_r.
Qed.

Lemma open_cleanup_normal (c : OpenCleanup) (vars : list OpenVars) (log0 : list Action)
    (d : OpenDeps) :
  open_cleanup c vars log0 = (Normal tt, log0 ++ open_cleanup_calls (Some (d, c)) vars).
Proof.
  destruct c as [|inst]; simpl.
  - unfold mret, eff_ret, Eff.ret. now rewrite app_nil_r.
  - destruct (vars !! inst) as [[[viewer|] [handler|] other]|]; simpl;
      try (unfold mret, eff_ret, Eff.ret; now rewrite app_nil_r).
    unfold mbind, eff_bind, Eff.bind, Eff.emit. now rewrite <- app_assoc.
Qed.

Lemma with_log_same (i : Instance) : with_log (log i ++ []) i = i.
Proof. rewrite app_nil_r. now destruct i. Qed.

Lemma run_init_cleanup_eq (i : Instance) :
  run_init_cleanup i = with_log (log i ++ init_cleanup_calls (init_hook i)) i.
Proof.
  unfold run_init_cleanup. destruct (init_hook i) as [[d c]|].
  - apply exec_normal, init_cleanup_normal.
  - simpl. now rewrite with_log_same.
Qed.

Lemma run_open_cleanup_eq (i : Instance) :
  run_open_cleanup i
  = with_log (log i ++ open_cleanup_calls (open_hook i) (open_vars i)) i.
Proof.
  unfold run_open_cleanup. destruct (open_hook i) as [[d c]|].
  - apply exec_normal, open_cleanup_normal.
  - simpl. now rewrite with_log_same.
Qed.

Lemma init_inputs_present_guard (i : Instance) :
  init_inputs_present (props i) (state i) = init_guard (init_deps i).
Proof.
  unfold init_inputs_present, init_guard, init_deps.
  destruct (StreetSmartApi (state i)); reflexivity.
Qed.

(** The initialization effect, by the outcome of its guard. *)
Lemma init_effect_absent (i : Instance) :
  init_inputs_present (props i) (state i) = false -> init_effect i = (i, InitNoop).
Proof.
  unfold init_inputs_present, init_effect.
  destruct (StreetSmartApi (state i)) as [api|]; [|reflexivity].
  rewrite bool_decide_true by eauto. simpl.
  destruct (prim_truthy (username (state i))); [|reflexivity].
  destruct (prim_truthy (password (state i))); [|reflexivity].
  destruct (prim_truthy (apiKey (props i))); [discriminate|reflexivity].
Qed.

Lemma init_effect_present (i : Instance) :
  init_inputs_present (props i) (state i) = true ->
  exists api,
    StreetSmartApi (state i) = Some api /\
    init_effect i
    = (with_init_pending (S (init_pending i))
         (with_log (log i ++ [ApiInit (api_id api) (init_options (props i) (state i))])
            (set_state (setInitializing true) i)),
       InitDestroy api (targetElement (state i))).
Proof.
  unfold init_inputs_present, init_effect.
  destruct (StreetSmartApi (state i)) as [api|]; [|discriminate].
  rewrite bool_decide_true by eauto. simpl.
  intros H. apply andb_true_iff in H as [H Hk]. apply andb_true_iff in H as [Hu Hp].
  rewrite Hu, Hp, Hk. simpl. exists api. split; [reflexivity|].
  rewrite exec_emit. unfold set_state. destruct (mounted i); reflexivity.
Qed.

Lemma run_init_effect_absent (i : Instance) :
  init_inputs_present (props i) (state i) = false ->
  run_init_effect i = with_init_hook (Some (init_deps i, InitNoop)) i.
Proof. intros H. unfold run_init_effect. now rewrite (init_effect_absent i H). Qed.

Lemma run_init_effect_present (i : Instance) :
  init_inputs_present (props i) (state i) = true ->
  exists api,
    StreetSmartApi (state i) = Some api /\
    run_init_effect i
    = with_init_hook (Some (init_deps i, InitDestroy api (targetElement (state i))))
        (with_init_pending (S (init_pending i))
           (with_log (log i ++ [ApiInit (api_id api) (init_options (props i) (state i))])
              (set_state (setInitializing true) i))).
Proof.
  intros H. destruct (init_effect_present i H) as (api & Hapi & Heff).
  exists api. split; [exact Hapi|]. unfold run_init_effect. now rewrite Heff.
Qed.

Lemma open_effect_absent (i : Instance) :
  open_inputs_present (props i) (state i) = false -> open_effect i = (i, OpenNoop).
Proof.
  unfold open_inputs_present, open_effect.
  destruct (StreetSmartApi (state i)) as [api|]; [|reflexivity].
  rewrite bool_decide_true by eauto. simpl.
  destruct (prim_truthy (imageId (props i))); [|reflexivity].
  destruct (initialized (state i)); [discriminate|reflexivity].
Qed.

Lemma open_effect_present (i : Instance) :
  open_inputs_present (props i) (state i) = true ->
  exists api,
    StreetSmartApi (state i) = Some api /\
    open_effect i
    = (with_open_pending (List.length (open_vars i) :: open_pending i)
         (with_log (log i ++ [ApiOpen (api_id api) (VPrim (imageId (props i)))
                                (panorama_options api "EPSG:4326")])
            (with_open_vars (open_vars i ++ [unassigned]) i)),
       OpenOff (List.length (open_vars i))).
Proof.
  unfold open_inputs_present, open_effect.
  destruct (StreetSmartApi (state i)) as [api|]; [|discriminate].
  rewrite bool_decide_true by eauto. simpl.
  intros H. apply andb_true_iff in H as [Hid Hi].
  rewrite Hid, Hi. simpl. exists api. split; reflexivity.
Qed.

Lemma run_open_effect_absent (i : Instance) :
  open_inputs_present (props i) (state i) = false ->
  run_open_effect i = with_open_hook (Some (open_deps i, OpenNoop)) i.
Proof. intros H. unfold run_open_effect. now rewrite (open_effect_absent i H). Qed.

Lemma run_open_effect_present (i : Instance) :
  open_inputs_present (props i) (state i) = true ->
  exists api,
    StreetSmartApi (state i) = Some api /\
    run_open_effect i
    = with_open_hook (Some (open_deps i, OpenOff (List.length (open_vars i))))
        (with_open_pending (List.length (open_vars i) :: open_pending i)
           (with_log (log i ++ [ApiOpen (api_id api) (VPrim (imageId (props i)))
                                  (panorama_options api "EPSG:4326")])
              (with_open_vars (open_vars i ++ [unassigned]) i))).
Proof.
  intros H. destruct (open_effect_present i H) as (api & Hapi & Heff).
  exists api. split; [exact Hapi|]. unfold run_open_effect. now rewrite Heff.
Qed.

(** Each phase keeps what it does not write, and appends its calls. *)
Lemma run_init_effect_log (i : Instance) :
  log (run_init_effect i) = log i ++ init_effect_calls (props i) (state i).
Proof.
  unfold init_effect_calls.
  destruct (init_inputs_present (props i) (state i)) eqn:Hg.
  - destruct (run_init_effect_present i Hg) as (api & -> & ->). reflexivity.
  - rewrite (run_init_effect_absent i Hg). simpl.
    destruct (StreetSmartApi (state i)); now rewrite app_nil_r.
Qed.

Lemma run_open_effect_log (i : Instance) :
  log (run_open_effect i) = log i ++ open_effect_calls (props i) (state i).
Proof.
  unfold open_effect_calls.
  destruct (open_inputs_present (props i) (state i)) eqn:Hg.
  - destruct (run_open_effect_present i Hg) as (api & -> & ->). reflexivity.
  - rewrite (run_open_effect_absent i Hg). simpl.
    destruct (StreetSmartApi (state i)); now rewrite app_nil_r.
Qed.

Lemma run_init_effect_frame (i : Instance) :
  props (run_init_effect i) = props i /\
  open_hook (run_init_effect i) = open_hook i /\
  open_vars (run_init_effect i) = open_vars i /\
  open_pending (run_init_effect i) = open_pending i /\
  mounted (run_init_effect i) = mounted i /\
  uncaught (run_init_effect i) = uncaught i /\
  init_deps (run_init_effect i) = init_deps i /\
  open_deps (run_init_effect i) = open_deps i.
Proof.
  destruct (init_inputs_present (props i) (state i)) eqn:Hg.
  - destruct (run_init_effect_present i Hg) as (api & _ & ->).
    unfold set_state, init_deps, open_deps. destruct (mounted i) eqn:Hm; simpl;
      rewrite ?Hm; repeat split; reflexivity.
  - rewrite (run_init_effect_absent i Hg). repeat split; reflexivity.
Qed.

Lemma run_open_effect_frame (i : Instance) :
  props (run_open_effect i) = props i /\
  state (run_open_effect i) = state i /\
  init_hook (run_open_effect i) = init_hook i /\
  mounted (run_open_effect i) = mounted i /\
  uncaught (run_open_effect i) = uncaught i.
Proof.
  destruct (open_inputs_present (props i) (state i)) eqn:Hg.
  - destruct (run_open_effect_present i Hg) as (api & _ & ->). repeat split; reflexivity.
  - rewrite (run_open_effect_absent i Hg). repeat split; reflexivity.
Qed.

Lemma run_init_effect_state (i : Instance) :
  state (run_init_effect i) = state i \/
  state (run_init_effect i) = setInitializing true (state i).
Proof.
  destruct (init_inputs_present (props i) (state i)) eqn:Hg.
  - destruct (run_init_effect_present i Hg) as (api & _ & ->).
    unfold set_state. destruct (mounted i); simpl; auto.
  - rewrite (run_init_effect_absent i Hg). now left.
Qed.

Lemma open_effect_calls_run_init_effect (p : Props) (i : Instance) :
  open_effect_calls p (state (run_init_effect i)) = open_effect_calls p (state i).
Proof. destruct (run_init_effect_state i) as [-> | ->]; reflexivity. Qed.

Lemma commit_log (i : Instance) :
  mounted i = true -> log (commit i) = log i ++ commit_calls i.
Proof.
  intros Hm. unfold commit, commit_calls. rewrite Hm. simpl.
  destruct (deps_changed (init_hook i) (init_deps i)),
           (deps_changed (open_hook i) (open_deps i));
    rewrite ?run_open_effect_log, ?run_init_effect_log,
            ?run_open_cleanup_eq, ?run_init_cleanup_eq;
    repeat match goal with
           | |- context [props (run_init_effect ?j)] =>
               rewrite (proj1 (run_init_effect_frame j))
           end;
    rewrite ?open_effect_calls_run_init_effect; simpl;
    rewrite ?run_init_effect_log, ?run_open_cleanup_eq, ?run_init_cleanup_eq; simpl;
    rewrite ?app_nil_r, <- ?app_assoc; reflexivity.
Qed.

(** ** The invariants hold in every reachable instance *)

Lemma vars_registered_mono (inst : nat) (vars : OpenVars) (l acts : list Action) :
  vars_registered inst vars l -> vars_registered inst vars (l ++ acts).
Proof.
  intros [H|(viewer & Hv & H1 & H2)]; [now left|right].
  exists viewer. repeat split; [exact Hv| |]; apply elem_of_app; now left.
Qed.

(** [consistent] reads six fields only, and the log may grow. *)
Lemma consistent_ext (i j : Instance) (acts : list Action) :
  consistent i ->
  uncaught j = uncaught i -> init_hook j = init_hook i -> open_hook j = open_hook i ->
  mounted j = mounted i -> open_vars j = open_vars i -> log j = log i ++ acts ->
  consistent j.
Proof.
  intros [H1 H2 H3 H4] Hu Hi Ho Hm Hv Hl. split.
  - congruence.
  - rewrite Hi. exact H2.
  - rewrite Hm, Hi, Ho. exact H3.
  - rewrite Hv, Hl. intros inst vars Hlook. apply vars_registered_mono. eauto.
Qed.

Lemma consistent_with_log (i : Instance) (acts : list Action) :
  consistent i -> consistent (with_log (log i ++ acts) i).
Proof. intros H. now apply (consistent_ext i _ acts). Qed.

Lemma consistent_set_state (f : State -> State) (i : Instance) :
  consistent i -> consistent (set_state f i).
Proof.
  intros H. apply (consistent_ext i _ []); try exact H;
    unfold set_state; destruct (mounted i) eqn:Hm; simpl;
    rewrite ?app_nil_r; congruence.
Qed.

Lemma consistent_with_props (p : Props) (i : Instance) :
  consistent i -> consistent (with_props p i).
Proof. intros H. apply (consistent_ext i _ []); try exact H; simpl; now rewrite ?app_nil_r. Qed.

Lemma consistent_with_init_pending (n : nat) (i : Instance) :
  consistent i -> consistent (with_init_pending n i).
Proof. intros H. apply (consistent_ext i _ []); try exact H; simpl; now rewrite ?app_nil_r. Qed.

Lemma consistent_with_open_pending (pending : list nat) (i : Instance) :
  consistent i -> consistent (with_open_pending pending i).
Proof. intros H. apply (consistent_ext i _ []); try exact H; simpl; now rewrite ?app_nil_r. Qed.

Lemma consistent_run_init_cleanup (i : Instance) :
  consistent i -> consistent (run_init_cleanup i).
Proof. rewrite run_init_cleanup_eq. apply consistent_with_log. Qed.

Lemma consistent_run_open_cleanup (i : Instance) :
  consistent i -> consistent (run_open_cleanup i).
Proof. rewrite run_open_cleanup_eq. apply consistent_with_log. Qed.

Lemma init_cleanup_matches_effect (i : Instance) :
  init_cleanup_matches (init_deps i) (snd (init_effect i)).
Proof.
  unfold init_cleanup_matches. rewrite <- init_inputs_present_guard.
  destruct (init_inputs_present (props i) (state i)) eqn:Hg.
  - destruct (init_effect_present i Hg) as (api & Hapi & ->). simpl.
    exists api, (targetElement (state i)). split; [reflexivity|].
    unfold init_deps. simpl. now rewrite Hapi.
  - now rewrite (init_effect_absent i Hg).
Qed.

Lemma consistent_run_init_effect (i : Instance) :
  mounted i = true -> consistent i -> consistent (run_init_effect i).
Proof.
  intros Hmt H. pose proof (init_cleanup_matches_effect i) as Hmatch.
  pose proof (run_init_effect_frame i) as (_ & Ho & Hv & _ & Hm & Hu & _).
  pose proof (run_init_effect_log i) as Hl.
  destruct H as [H1 H2 H3 H4]. split.
  - congruence.
  - intros d c Hhook. unfold run_init_effect in Hhook.
    destruct (init_effect i) as [i' c']. simpl in Hhook, Hmatch. congruence.
  - rewrite Hm, Hmt. discriminate.
  - rewrite Hv, Hl. intros inst vars Hlook. apply vars_registered_mono. eauto.
Qed.

Lemma run_open_effect_vars (i : Instance) :
  open_vars (run_open_effect i) = open_vars i \/
  open_vars (run_open_effect i) = open_vars i ++ [unassigned].
Proof.
  destruct (open_inputs_present (props i) (state i)) eqn:Hg.
  - destruct (run_open_effect_present i Hg) as (api & _ & ->). now right.
  - rewrite (run_open_effect_absent i Hg). now left.
Qed.

Lemma consistent_run_open_effect (i : Instance) :
  mounted i = true -> consistent i -> consistent (run_open_effect i).
Proof.
  intros Hmt H.
  pose proof (run_open_effect_frame i) as (_ & _ & Hi & Hm & Hu).
  pose proof (run_open_effect_log i) as Hl.
  destruct H as [H1 H2 H3 H4]. split.
  - congruence.
  - rewrite Hi. exact H2.
  - rewrite Hm, Hmt. discriminate.
  - rewrite Hl. intros inst vars Hlook. apply vars_registered_mono.
    destruct (run_open_effect_vars i) as [Hv|Hv]; rewrite Hv in Hlook; [eauto|].
    apply lookup_app_Some in Hlook as [Hlook|[_ Hlook]]; [eauto|].
    apply list_lookup_singleton_Some in Hlook as [_ <-]. now left.
Qed.

Lemma commit_unmounted (i : Instance) : mounted i = false -> commit i = i.
Proof. intros Hm. unfold commit. now rewrite Hm. Qed.

Lemma run_init_cleanup_mounted (i : Instance) :
  mounted (run_init_cleanup i) = mounted i.
Proof. now rewrite run_init_cleanup_eq. Qed.

Lemma run_open_cleanup_mounted (i : Instance) :
  mounted (run_open_cleanup i) = mounted i.
Proof. now rewrite run_open_cleanup_eq. Qed.

Lemma consistent_commit (i : Instance) : consistent i -> consistent (commit i).
Proof.
  intros H. unfold commit. destruct (mounted i) eqn:Hm; [|exact H]. simpl.
  set (ic := deps_changed (init_hook i) (init_deps i)).
  set (oc := deps_changed (open_hook i) (open_deps i)).
  assert (H1 : consistent (if ic then run_init_cleanup i else i)
               /\ mounted (if ic then run_init_cleanup i else i) = true).
  { destruct ic; [|now split]. split; [now apply consistent_run_init_cleanup|].
    now rewrite run_init_cleanup_mounted. }
  destruct H1 as [H1 Hm1]. set (i1 := if ic then run_init_cleanup i else i) in *.
  assert (H2 : consistent (if oc then run_open_cleanup i1 else i1)
               /\ mounted (if oc then run_open_cleanup i1 else i1) = true).
  { destruct oc; [|now split]. split; [now apply consistent_run_open_cleanup|].
    now rewrite run_open_cleanup_mounted. }
  destruct H2 as [H2 Hm2]. set (i2 := if oc then run_open_cleanup i1 else i1) in *.
  assert (H3 : consistent (if ic then run_init_effect i2 else i2)
               /\ mounted (if ic then run_init_effect i2 else i2) = true).
  { destruct ic; [|now split]. split; [now apply consistent_run_init_effect|].
    pose proof (run_init_effect_frame i2) as (_ & _ & _ & _ & -> & _). exact Hm2. }
  destruct H3 as [H3 Hm3]. set (i3 := if ic then run_init_effect i2 else i2) in *.
  destruct oc; [|exact H3]. now apply consistent_run_open_effect.
Qed.

Lemma consistent_exec_emit (a : Action) (i : Instance) :
  consistent i -> consistent (exec (Eff.emit a) i).
Proof. rewrite exec_emit. apply consistent_with_log. Qed.

Lemma consistent_open_then (inst : nat) (result : OpenResult) (i : Instance) :
  consistent i -> consistent (open_then inst result i).
Proof.
  intros H. unfold open_then. destruct (first_viewer result) as [viewer|]; [|exact H].
  rewrite exec_emit2. destruct H as [H1 H2 H3 H4]. split; simpl; try assumption.
  intros k vars Hlook.
  apply list_lookup_insert_Some in Hlook as [(<- & <- & _)|[_ Hlook]].
  - right. exists viewer. split; [reflexivity|].
    split; apply elem_of_app; right; [now left|right; now left].
  - apply vars_registered_mono. eauto.
Qed.

Lemma consistent_handle (i : Instance) (ev : Event) :
  consistent i -> consistent (handle i ev).
Proof.
  intros H. destruct ev as [p|target api|c| | |err|inst result|inst err|]; simpl.
  - destruct (mounted i); [now apply consistent_with_props|exact H].
  - now do 2 apply consistent_set_state.
  - now apply consistent_set_state.
  - destruct (mounted i && initialized (state i)); [|exact H].
    unfold reload_click. now do 2 apply consistent_set_state.
  - destruct (init_pending i) as [|n]; [exact H|].
    unfold init_then. do 2 apply consistent_set_state.
    now apply consistent_with_init_pending.
  - destruct (init_pending i) as [|n]; [exact H|].
    unfold init_catch. apply consistent_exec_emit. do 2 apply consistent_set_state.
    now apply consistent_with_init_pending.
  - case_bool_decide; [|exact H].
    apply consistent_open_then. now apply consistent_with_open_pending.
  - case_bool_decide; [|exact H].
    unfold open_catch. apply consistent_exec_emit, consistent_set_state.
    now apply consistent_with_open_pending.
  - exact H.
Qed.

Lemma consistent_unmount (i : Instance) : consistent i -> consistent (unmount i).
Proof.
  intros H. unfold unmount. destruct (mounted i) eqn:Hm; [|exact H]. simpl.
  apply consistent_run_init_cleanup, consistent_run_open_cleanup in H.
  destruct H as [H1 H2 H3 H4]. split; simpl; try assumption.
  - discriminate.
  - now split.
Qed.

Lemma consistent_step (i : Instance) (ev : Event) :
  consistent i -> consistent (step i ev).
Proof.
  intros H. unfold step. rewrite (no_uncaught i H).
  destruct ev; try (apply consistent_commit, consistent_handle, H).
  now apply consistent_unmount.
Qed.

Lemma consistent_initial (p : Props) (stored : option Credentials) :
  consistent (initial p stored).
Proof.
  split; simpl; try discriminate; reflexivity.
Qed.

(** A commit leaves the hooks with the dependencies of its render. *)
Lemma deps_unchanged {D C : Type} `{EqDecision D} (hook : option (D * C)) (next : D) :
  deps_changed hook next = false -> exists c, hook = Some (next, c).
Proof.
  destruct hook as [[prev c]|]; simpl; [|discriminate].
  intros Hd. apply bool_decide_eq_false in Hd. exists c.
  destruct (decide (prev = next)) as [->|Hne]; [reflexivity|]. now destruct Hd.
Qed.

Lemma run_init_effect_hook (i : Instance) :
  exists c, init_hook (run_init_effect i) = Some (init_deps i, c).
Proof. unfold run_init_effect. destruct (init_effect i). simpl. eauto. Qed.

Lemma run_open_effect_hook (i : Instance) :
  exists c, open_hook (run_open_effect i) = Some (open_deps i, c).
Proof. unfold run_open_effect. destruct (open_effect i). simpl. eauto. Qed.

Lemma run_open_effect_deps (i : Instance) :
  init_deps (run_open_effect i) = init_deps i /\
  open_deps (run_open_effect i) = open_deps i.
Proof.
  pose proof (run_open_effect_frame i) as (Hp & Hs & _).
  unfold init_deps, open_deps. rewrite Hp, Hs. now split.
Qed.

Lemma synced_commit (i : Instance) : synced (commit i).
Proof.
  unfold synced, commit. destruct (mounted i) eqn:Hm; simpl; [intros _|congruence].
  destruct (deps_changed (init_hook i) (init_deps i)) eqn:Hic,
           (deps_changed (open_hook i) (open_deps i)) eqn:Hoc;
    rewrite ?run_init_cleanup_eq, ?run_open_cleanup_eq;
    repeat match goal with
    | |- context [run_open_effect ?j] =>
        let H := fresh in
        pose proof (run_open_effect_frame j) as (_ & _ & H & _); rewrite H; clear H;
        destruct (run_open_effect_deps j) as [H ->]; rewrite H; clear H;
        destruct (run_open_effect_hook j) as [? ->]
    end;
    repeat match goal with
    | |- context [run_init_effect ?j] =>
        let H := fresh in
        pose proof (run_init_effect_frame j) as (_ & H & _); rewrite ?H; clear H;
        pose proof (run_init_effect_frame j) as (_ & _ & _ & _ & _ & _ & H & H');
        rewrite ?H, ?H'; clear H H';
        destruct (run_init_effect_hook j) as [? ->]
    end; simpl;
    try (apply deps_unchanged in Hic as [? ->]);
    try (apply deps_unchanged in Hoc as [? ->]);
    split; eauto.
Qed.

Lemma synced_step (i : Instance) (ev : Event) :
  consistent i -> synced i -> synced (step i ev).
Proof.
  intros Hc Hs. unfold step. rewrite (no_uncaught i Hc).
  destruct ev; try apply synced_commit.
  unfold unmount, synced. destruct (mounted i) eqn:Hm; simpl; [discriminate|].
  now rewrite Hm.
Qed.

Lemma run_invariants (evs : list Event) : forall i,
  consistent i -> synced i -> consistent (run i evs) /\ synced (run i evs).
Proof.
  induction evs as [|ev evs IH]; intros i Hc Hs; simpl; [now split|].
  apply IH; [now apply consistent_step|now apply synced_step].
Qed.

Lemma reachable_invariants (i : Instance) :
  reachable i -> consistent i /\ synced i.
Proof.
  intros (p & stored & evs & ->). apply run_invariants.
  - apply consistent_commit, consistent_initial.
  - apply synced_commit.
Qed.

(** ** The calls of a step *)

Lemma set_state_frame (f : State -> State) (i : Instance) :
  props (set_state f i) = props i /\ init_hook (set_state f i) = init_hook i /\
  open_hook (set_state f i) = open_hook i /\ open_vars (set_state f i) = open_vars i /\
  open_pending (set_state f i) = open_pending i /\
  init_pending (set_state f i) = init_pending i /\
  mounted (set_state f i) = mounted i /\ uncaught (set_state f i) = uncaught i /\
  log (set_state f i) = log i.
Proof. unfold set_state. destruct (mounted i) eqn:Hm; simpl; rewrite ?Hm; tauto. Qed.

Lemma handle_frame (i : Instance) (ev : Event) :
  init_hook (handle i ev) = init_hook i /\ open_hook (handle i ev) = open_hook i /\
  mounted (handle i ev) = mounted i /\ uncaught (handle i ev) = uncaught i /\
  log (handle i ev) = log i ++ handle_calls i ev.
Proof.
  destruct ev as [p|target api|c| | |err|inst result|inst err|]; simpl;
    rewrite ?app_nil_r.
  - destruct (mounted i) eqn:Hm; simpl; rewrite ?Hm; tauto.
  - pose proof (set_state_frame (setStreetSmartApi api)
                  (set_state (setTargetElement target) i)) as (_&->&->&_&_&_&->&->&->).
    pose proof (set_state_frame (setTargetElement target) i) as (_&->&->&_&_&_&->&->&->).
    tauto.
  - pose proof (set_state_frame (setCredentials c) i) as (_&->&->&_&_&_&->&->&->). tauto.
  - destruct (mounted i && initialized (state i)); [|tauto].
    unfold reload_click.
    pose proof (set_state_frame (setReload (reload (state i) + 1))
                  (set_state (setError null) i)) as (_&->&->&_&_&_&->&->&->).
    pose proof (set_state_frame (setError null) i) as (_&->&->&_&_&_&->&->&->).
    tauto.
  - destruct (init_pending i) as [|n]; rewrite ?app_nil_r; [tauto|].
    unfold init_then.
    pose proof (set_state_frame (setInitialized true)
                  (set_state (setInitializing false) (with_init_pending n i)))
      as (_&->&->&_&_&_&->&->&->).
    pose proof (set_state_frame (setInitializing false) (with_init_pending n i))
      as (_&->&->&_&_&_&->&->&->).
    simpl. tauto.
  - destruct (init_pending i) as [|n]; rewrite ?app_nil_r; [tauto|].
    unfold init_catch. rewrite exec_emit. simpl.
    pose proof (set_state_frame (setError err)
                  (set_state (setInitializing false) (with_init_pending n i)))
      as (_&->&->&_&_&_&->&->&->).
    pose proof (set_state_frame (setInitializing false) (with_init_pending n i))
      as (_&->&->&_&_&_&->&->&->).
    simpl. tauto.
  - case_bool_decide; rewrite ?app_nil_r; [|tauto].
    unfold open_then. destruct (first_viewer result) as [viewer|];
      [rewrite exec_emit2|]; simpl; rewrite ?app_nil_r; tauto.
  - case_bool_decide; rewrite ?app_nil_r; [|tauto].
    unfold open_catch. rewrite exec_emit. simpl.
    pose proof (set_state_frame (setError err) (settle inst i))
      as (_&->&->&_&_&_&->&->&->).
    simpl. tauto.
  - tauto.
Qed.

Lemma commit_uncaught (i : Instance) : uncaught (commit i) = uncaught i.
Proof.
  unfold commit. destruct (mounted i); [|reflexivity]. simpl.
  destruct (deps_changed (init_hook i) (init_deps i)),
           (deps_changed (open_hook i) (open_deps i));
    repeat match goal with
    | |- context [run_open_effect ?j] =>
        let H := fresh in
        pose proof (run_open_effect_frame j) as (_ & _ & _ & _ & H); rewrite H; clear H
    | |- context [run_init_effect ?j] =>
        let H := fresh in
        pose proof (run_init_effect_frame j) as (_ & _ & _ & _ & _ & H & _);
        rewrite H; clear H
    end;
    rewrite ?run_open_cleanup_eq, ?run_init_cleanup_eq; reflexivity.
Qed.

(** No step lets an exception escape. *)
Lemma step_uncaught (i : Instance) (ev : Event) : uncaught (step i ev) = uncaught i.
Proof.
  unfold step. destruct (uncaught i) eqn:Hu; [exact Hu|].
  destruct ev;
    try (rewrite commit_uncaught;
         match goal with
         | |- uncaught (handle ?j ?e) = _ =>
             pose proof (handle_frame j e) as (_ & _ & _ & -> & _)
         end; exact Hu).
  unfold unmount. destruct (mounted i); [|exact Hu]. simpl.
  now rewrite run_open_cleanup_eq, run_init_cleanup_eq.
Qed.

Lemma step_log (i : Instance) (ev : Event) :
  log (step i ev) = log i ++ step_calls i ev.
Proof.
  unfold step, step_calls. destruct (uncaught i) eqn:Hu; [now rewrite app_nil_r|].
  pose proof (handle_frame i ev) as (_ & _ & Hm & _ & Hl).
  destruct (mounted i) eqn:Hmt.
  - destruct ev;
      try (rewrite commit_log by congruence; rewrite Hl; now rewrite <- app_assoc).
    unfold unmount. rewrite Hmt. simpl.
    rewrite run_open_cleanup_eq, run_init_cleanup_eq. simpl. now rewrite <- app_assoc.
  - destruct ev; try (rewrite commit_unmounted by congruence; exact Hl).
    unfold unmount. rewrite Hmt. simpl. now rewrite app_nil_r.
Qed.

Lemma emitted_step (i : Instance) (ev : Event) :
  emitted (fun j => step j ev) i = step_calls i ev.
Proof. unfold emitted. rewrite step_log. apply drop_app_length. Qed.

Lemma emitted_append (f : Instance -> Instance) (i : Instance) (acts : list Action) :
  log (f i) = log i ++ acts -> emitted f i = acts.
Proof. intros H. unfold emitted. rewrite H. apply drop_app_length. Qed.

(** *** Which phase makes which call *)

Lemma handle_calls_kind (i : Instance) (ev : Event) :
  Forall (fun a => ~ is_init a /\ ~ is_destroy a /\ ~ is_off a /\ ~ is_open a)
         (handle_calls i ev).
Proof.
  destruct ev as [p|target api|c| | |err|inst result|inst err|]; simpl;
    try apply Forall_nil_2.
  - destruct (init_pending i); repeat constructor; simpl; tauto.
  - case_bool_decide; [|apply Forall_nil_2].
    destruct (first_viewer result); repeat constructor; simpl; tauto.
  - case_bool_decide; repeat constructor; simpl; tauto.
Qed.

Lemma destroy_calls_kind (api : Api) (target : val) :
  Forall (fun a => ~ is_init a /\ ~ is_off a /\ ~ is_open a) (destroy_calls api target).
Proof.
  unfold destroy_calls. destruct (destroy api) as [f|]; [|apply Forall_nil_2].
  destruct (f _); repeat constructor; simpl; tauto.
Qed.

Lemma init_cleanup_calls_kind (hook : option (InitDeps * InitCleanup)) :
  Forall (fun a => ~ is_init a /\ ~ is_off a /\ ~ is_open a) (init_cleanup_calls hook).
Proof.
  destruct hook as [[d [|api target]]|]; simpl; try apply Forall_nil_2.
  apply destroy_calls_kind.
Qed.

Lemma open_cleanup_calls_kind (hook : option (OpenDeps * OpenCleanup))
    (vars : list OpenVars) :
  Forall (fun a => is_off a) (open_cleanup_calls hook vars).
Proof.
  destruct hook as [[d [|inst]]|]; simpl; try apply Forall_nil_2.
  destruct (vars !! inst) as [[[viewer|] [handler|] other]|];
    repeat constructor.
Qed.

Lemma init_effect_calls_kind (p : Props) (st : State) :
  Forall (fun a => is_init a) (init_effect_calls p st).
Proof.
  unfold init_effect_calls. destruct (StreetSmartApi st); [|apply Forall_nil_2].
  destruct (init_inputs_present p st); repeat constructor.
Qed.

Lemma open_effect_calls_kind (p : Props) (st : State) :
  Forall (fun a => is_open a) (open_effect_calls p st).
Proof.
  unfold open_effect_calls. destruct (StreetSmartApi st); [|apply Forall_nil_2].
  destruct (open_inputs_present p st); repeat constructor.
Qed.

Lemma Forall_if_nil {A : Type} (P : A -> Prop) (b : bool) (l : list A) :
  Forall P l -> Forall P (if b then l else []).
Proof. destruct b; [auto|intros _; apply Forall_nil_2]. Qed.

(** *** The state after a commit *)

Lemma run_init_effect_state_eq (i : Instance) :
  mounted i = true ->
  state (run_init_effect i)
  = if init_inputs_present (props i) (state i)
    then setInitializing true (state i) else state i.
Proof.
  intros Hm. destruct (init_inputs_present (props i) (state i)) eqn:Hg.
  - destruct (run_init_effect_present i Hg) as (api & _ & ->).
    unfold set_state. rewrite Hm. reflexivity.
  - now rewrite (run_init_effect_absent i Hg).
Qed.

Lemma commit_props (i : Instance) : props (commit i) = props i.
Proof.
  unfold commit. destruct (mounted i); [|reflexivity]. simpl.
  destruct (deps_changed (init_hook i) (init_deps i)),
           (deps_changed (open_hook i) (open_deps i));
    repeat match goal with
    | |- context [run_open_effect ?j] =>
        let H := fresh in
        pose proof (run_open_effect_frame j) as (H & _); rewrite H; clear H
    | |- context [run_init_effect ?j] =>
        let H := fresh in
        pose proof (run_init_effect_frame j) as (H & _); rewrite H; clear H
    end;
    rewrite ?run_open_cleanup_eq, ?run_init_cleanup_eq; reflexivity.
Qed.

Lemma commit_state (i : Instance) :
  mounted i = true ->
  state (commit i)
  = if deps_changed (init_hook i) (init_deps i)
       && init_inputs_present (props i) (state i)
    then setInitializing true (state i) else state i.
Proof.
  intros Hm. unfold commit. rewrite Hm. simpl.
  destruct (deps_changed (init_hook i) (init_deps i)),
           (deps_changed (open_hook i) (open_deps i)); simpl;
    repeat match goal with
    | |- context [run_open_effect ?j] =>
        let H := fresh in
        pose proof (run_open_effect_frame j) as (_ & H & _); rewrite H; clear H
    end;
    rewrite ?run_init_effect_state_eq;
    rewrite ?run_open_cleanup_eq, ?run_init_cleanup_eq; simpl; auto.
Qed.

(** ** The initialization effect *)

Lemma unmount_frame (i : Instance) :
  props (unmount i) = props i /\ state (unmount i) = state i.
Proof.
  unfold unmount. destruct (mounted i); [|now split]. simpl.
  now rewrite run_open_cleanup_eq, run_init_cleanup_eq.
Qed.

(** A step that calls [init] ends with the four inputs present and
    [initializing] set. *)
Lemma step_init_call (i : Instance) (ev : Event) (api : nat) (options : val) :
  ApiInit api options ∈ emitted (fun j => step j ev) i ->
  init_inputs_present (props (step i ev)) (state (step i ev)) = true /\
  initializing (state (step i ev)) = true.
Proof.
  rewrite emitted_step. unfold step_calls, step.
  destruct (uncaught i) eqn:Hu; [intros []%elem_of_nil|].
  pose proof (handle_calls_kind i ev) as Hhk. rewrite Forall_forall in Hhk.
  pose proof (handle_frame i ev) as (_ & _ & Hmj & _ & _).
  destruct (mounted i) eqn:Hm.
  2:{ intros Hin. apply Hhk in Hin. simpl in Hin. tauto. }
  assert (Hcommit :
            ApiInit api options ∈ handle_calls i ev ++ commit_calls (handle i ev) ->
            init_inputs_present (props (commit (handle i ev)))
                                (state (commit (handle i ev))) = true /\
            initializing (state (commit (handle i ev))) = true).
  { intros [Hin|Hin]%elem_of_app; [apply Hhk in Hin; simpl in Hin; tauto|].
    set (j := handle i ev) in *.
    unfold commit_calls in Hin.
    pose proof (init_cleanup_calls_kind (init_hook j)) as K1.
    pose proof (open_cleanup_calls_kind (open_hook j) (open_vars j)) as K2.
    pose proof (open_effect_calls_kind (props j) (state j)) as K4.
    apply (Forall_if_nil _ (deps_changed (init_hook j) (init_deps j))) in K1.
    apply (Forall_if_nil _ (deps_changed (open_hook j) (open_deps j))) in K2, K4.
    rewrite Forall_forall in K1, K2, K4.
    apply elem_of_app in Hin as [Hin|Hin]; [apply K1 in Hin; simpl in Hin; tauto|].
    apply elem_of_app in Hin as [Hin|Hin]; [apply K2 in Hin; contradiction|].
    apply elem_of_app in Hin as [Hin|Hin]; [|apply K4 in Hin; contradiction].
    destruct (deps_changed (init_hook j) (init_deps j)) eqn:Hic;
      [|now apply elem_of_nil in Hin].
    unfold init_effect_calls in Hin.
    destruct (StreetSmartApi (state j)) as [a|] eqn:Ha; [|now apply elem_of_nil in Hin].
    destruct (init_inputs_present (props j) (state j)) eqn:Hg;
      [|now apply elem_of_nil in Hin].
    rewrite commit_props, (commit_state j Hmj), Hic, Hg. simpl.
    split; [exact Hg|reflexivity]. }
  destruct ev; try exact Hcommit.
  intros Hin. exfalso.
  pose proof (init_cleanup_calls_kind (init_hook i)) as K1.
  pose proof (open_cleanup_calls_kind (open_hook i) (open_vars i)) as K2.
  rewrite Forall_forall in K1, K2.
  apply elem_of_app in Hin as [Hin|Hin]; [apply K1 in Hin; simpl in Hin; tauto|].
  apply K2 in Hin. contradiction.
Qed.

(** The commit that follows the callback of an event keeps the state
    when one of the four inputs is absent. *)
Lemma step_state_inputs_absent (i : Instance) (ev : Event) :
  uncaught i = None ->
  init_inputs_present (props (handle i ev)) (state (handle i ev)) = false ->
  props (step i ev) = props (handle i ev) /\ state (step i ev) = state (handle i ev).
Proof.
  intros Hu Hg. unfold step. rewrite Hu.
  assert (Hcommit : props (commit (handle i ev)) = props (handle i ev) /\
                    state (commit (handle i ev)) = state (handle i ev)).
  { split; [apply commit_props|].
    destruct (mounted (handle i ev)) eqn:Hm.
    - rewrite (commit_state _ Hm), Hg. now rewrite andb_false_r.
    - now rewrite commit_unmounted. }
  destruct ev; try exact Hcommit. apply unmount_frame.
Qed.

(** C4: the effect calls [init] (and sets [initializing]) only when the
    ApiHandle, the username, the password and the API key are all
    present; when one of them is absent the effect makes no call and
    changes nothing but its own cleanup, which is the empty function, so
    that a step then makes no call of [init] and no change of state
    beyond the callback of its event and the cleanup of what was
    initialized before. *)
Theorem init_only_when_inputs_present (i : Instance) (ev : Event) :
  (init_inputs_present (props i) (state i) = false ->
     run_init_effect i = with_init_hook (Some (init_deps i, InitNoop)) i /\
     emitted run_init_effect i = [] /\
     state (run_init_effect i) = state i) /\
  (init_inputs_present (props i) (state i) = true ->
     exists api,
       StreetSmartApi (state i) = Some api /\
       emitted run_init_effect i
       = [ApiInit (api_id api) (init_options (props i) (state i))] /\
       (mounted i = true -> initializing (state (run_init_effect i)) = true)) /\
  (forall api options,
     ApiInit api options ∈ emitted (fun j => step j ev) i ->
     init_inputs_present (props (step i ev)) (state (step i ev)) = true /\
     initializing (state (step i ev)) = true) /\
  (uncaught i = None ->
   init_inputs_present (props (handle i ev)) (state (handle i ev)) = false ->
     state (step i ev) = state (handle i ev) /\
     Forall (fun a => ~ is_init a) (emitted (fun j => step j ev) i)).
Proof.
  split; [|split; [|split]].
  - intros Hg. pose proof (run_init_effect_absent i Hg) as Heq.
    split; [exact Heq|]. split; [|now rewrite Heq].
    apply emitted_append. rewrite Heq. simpl. now rewrite app_nil_r.
  - intros Hg. destruct (run_init_effect_present i Hg) as (api & Hapi & Heq).
    exists api. split; [exact Hapi|]. split.
    + apply emitted_append. now rewrite Heq.
    + intros Hm. rewrite (run_init_effect_state_eq i Hm), Hg. reflexivity.
  - intros api options. apply step_init_call.
  - intros Hu Hg. destruct (step_state_inputs_absent i ev Hu Hg) as [Hp Hs].
    split; [exact Hs|]. apply Forall_forall. intros a Hin Ha.
    destruct a as [| |api options| | | | |]; simpl in Ha; try contradiction.
    apply step_init_call in Hin as [Hpresent _].
    rewrite Hp, Hs, Hg in Hpresent. discriminate.
Qed.

Lemma init_only_when_inputs_present_witness :
  emitted run_init_effect (initial demo_props None) = [] /\
  (init_inputs_present
     (props (step (mount demo_props demo_credentials)
                  (IframeLoad (VHost 1) (Some demo_api))))
     (state (step (mount demo_props demo_credentials)
                  (IframeLoad (VHost 1) (Some demo_api)))) = true /\
   initializing
     (state (step (mount demo_props demo_credentials)
                  (IframeLoad (VHost 1) (Some demo_api)))) = true).
Proof.
  split.
  - apply (proj1 (init_only_when_inputs_present (initial demo_props None) Unmount)).
    reflexivity.
  - apply (proj1 (proj2 (proj2 (init_only_when_inputs_present
                                  (mount demo_props demo_credentials)
                                  (IframeLoad (VHost 1) (Some demo_api)))))
             7%nat
             (init_options demo_props
                (setStreetSmartApi (Some demo_api)
                   (setTargetElement (VHost 1)
                      (state (initial demo_props demo_credentials)))))).
    rewrite emitted_step. vm_compute. left.
Defined.

(** ** Teardown of an initialization *)

(** C5: whenever a started initialization is torn down (its inputs or
    the reload counter changed, or the component unmounts), [destroy] is
    called once on the handle of that initialization with the target
    element that initialization was started with; when [destroy] throws,
    the exception is caught and logged, and the cleanup completes
    normally, so no exception leaves the step. *)
Theorem destroy_on_teardown (i : Instance) (ev : Event) (d : InitDeps) (api : Api)
    (target : val) :
  uncaught i = None ->
  mounted i = true ->
  init_hook i = Some (d, InitDestroy api target) ->
  ev = Unmount \/ d <> init_deps (handle i ev) ->
  (exists pre post,
     emitted (fun j => step j ev) i = pre ++ destroy_calls api target ++ post /\
     Forall (fun a => ~ is_destroy a) pre /\ Forall (fun a => ~ is_destroy a) post) /\
  uncaught (step i ev) = None /\
  (forall log0,
     init_cleanup (InitDestroy api target) log0
     = (Normal tt, log0 ++ destroy_calls api target)) /\
  (forall f,
     destroy api = Some f ->
     destroy_calls api target
     = ApiDestroy (api_id api) (VObj {[ "targetElement"%string := target ]}) ::
       match f (VObj {[ "targetElement"%string := target ]}) with
       | Some e => [ConsoleError (LogExn e)]
       | None => []
       end) /\
  (forall j,
     init_inputs_present (props j) (state j) = true ->
     exists a, StreetSmartApi (state j) = Some a /\
       init_hook (run_init_effect j)
       = Some (init_deps j, InitDestroy a (targetElement (state j)))).
Proof.
  intros Hu Hm Hhook Htrigger. split; [|split; [|split; [|split]]].
  - rewrite emitted_step. unfold step_calls. rewrite Hu, Hm.
    assert (Hoff : forall hook vars,
              Forall (fun a => ~ is_destroy a) (open_cleanup_calls hook vars)).
    { intros hook vars. eapply Forall_impl; [apply open_cleanup_calls_kind|].
      intros a Ha. destruct a; simpl in *; tauto. }
    assert (Hunmount : exists pre post,
              init_cleanup_calls (init_hook i) ++
              open_cleanup_calls (open_hook i) (open_vars i)
              = pre ++ destroy_calls api target ++ post /\
              Forall (fun a => ~ is_destroy a) pre /\
              Forall (fun a => ~ is_destroy a) post).
    { exists [], (open_cleanup_calls (open_hook i) (open_vars i)).
      rewrite Hhook. simpl. split; [reflexivity|].
      split; [apply Forall_nil_2|apply Hoff]. }
    destruct Htrigger as [->|Hchanged]; [exact Hunmount|].
    pose proof (handle_frame i ev) as (Hih & _).
    set (j := handle i ev) in *.
    assert (Hic : deps_changed (init_hook j) (init_deps j) = true).
    { rewrite Hih, Hhook. simpl. now apply bool_decide_eq_true. }
    assert (Hcalls : exists post,
              handle_calls i ev ++ commit_calls j
              = handle_calls i ev ++ destroy_calls api target ++ post /\
              Forall (fun a => ~ is_destroy a) post).
    { unfold commit_calls. rewrite Hic, Hih, Hhook. simpl. eexists. split; [reflexivity|].
      apply Forall_app. split; [apply Forall_if_nil, Hoff|].
      apply Forall_app. split.
      - eapply Forall_impl; [apply init_effect_calls_kind|].
        intros a Ha. destruct a; simpl in *; tauto.
      - apply Forall_if_nil. eapply Forall_impl; [apply open_effect_calls_kind|].
        intros a Ha. destruct a; simpl in *; tauto. }
    destruct Hcalls as (post & Heq & Hpost).
    assert (Hpre : Forall (fun a => ~ is_destroy a) (handle_calls i ev)).
    { eapply Forall_impl; [apply handle_calls_kind|]. intros a (_ & Ha & _). exact Ha. }
    destruct ev; try (eexists _, _; split; [exact Heq|split; [exact Hpre|exact Hpost]]).
    exact Hunmount.
  - now rewrite step_uncaught.
  - intros log0. exact (init_cleanup_normal (InitDestroy api target) log0 d).
  - intros f Hf. unfold destroy_calls. now rewrite Hf.
  - intros j Hg. destruct (run_init_effect_present j Hg) as (a & Ha & ->).
    exists a. split; [exact Ha|reflexivity].
Qed.

Lemma destroy_on_teardown_witness :
  uncaught (step (step (mount demo_props demo_credentials)
                       (IframeLoad (VHost 1) (Some demo_throwing_api)))
                 Unmount) = None /\
  destroy_calls demo_throwing_api (VHost 1)
  = [ApiDestroy 8 (VObj {[ "targetElement"%string := VHost 1 ]});
     ConsoleError (LogExn (Thrown (str "destroy failed")))].
Proof.
  destruct (destroy_on_teardown
              (step (mount demo_props demo_credentials)
                    (IframeLoad (VHost 1) (Some demo_throwing_api)))
              Unmount
              (init_deps (step (mount demo_props demo_credentials)
                               (IframeLoad (VHost 1) (Some demo_throwing_api))))
              demo_throwing_api (VHost 1))
    as (_ & Hno & _ & Hcalls & _).
  - reflexivity.
  - reflexivity.
  - reflexivity.
  - left. reflexivity.
  - split; [exact Hno|]. exact (Hcalls _ eq_refl).
Defined.

(** ** Reload *)

Lemma init_effect_calls_reload_click (i : Instance) :
  mounted i = true ->
  props (reload_click i) = props i /\
  init_effect_calls (props i) (state (reload_click i))
  = init_effect_calls (props i) (state i) /\
  reload (state (reload_click i)) = reload (state i) + 1 /\
  error (state (reload_click i)) = null /\
  open_deps (reload_click i) = open_deps i /\
  init_deps (reload_click i) <> init_deps i.
Proof.
  intros Hm. unfold reload_click, set_state. rewrite Hm. simpl. rewrite Hm. simpl.
  repeat split.
  unfold init_deps. simpl. intros [=]. lia.
Qed.

(** C8, as written, fails: after the credentials were cleared, a click on
    the reload button clears the error and increments the counter, and
    the effect, run again, neither destroys nor initializes anything. *)
Lemma reload_without_credentials_counterexample :
  reloadButton (CyclomediaView
    (props (run (mount demo_props demo_credentials)
              [IframeLoad (VHost 1) (Some demo_api); InitResolved;
               OpenRejected 0 (str "no image"); CredentialsChange None]))
    (state (run (mount demo_props demo_credentials)
              [IframeLoad (VHost 1) (Some demo_api); InitResolved;
               OpenRejected 0 (str "no image"); CredentialsChange None]))) = true /\
  alertDisplay (CyclomediaView
    (props (run (mount demo_props demo_credentials)
              [IframeLoad (VHost 1) (Some demo_api); InitResolved;
               OpenRejected 0 (str "no image"); CredentialsChange None]))
    (state (run (mount demo_props demo_credentials)
              [IframeLoad (VHost 1) (Some demo_api); InitResolved;
               OpenRejected 0 (str "no image"); CredentialsChange None]))) = "block"%string /\
  reload (state (run (mount demo_props demo_credentials)
              [IframeLoad (VHost 1) (Some demo_api); InitResolved;
               OpenRejected 0 (str "no image"); CredentialsChange None])) = 1 /\
  reload (state (run (mount demo_props demo_credentials)
              [IframeLoad (VHost 1) (Some demo_api); InitResolved;
               OpenRejected 0 (str "no image"); CredentialsChange None; ReloadClick])) = 2 /\
  error (state (run (mount demo_props demo_credentials)
              [IframeLoad (VHost 1) (Some demo_api); InitResolved;
               OpenRejected 0 (str "no image"); CredentialsChange None; ReloadClick])) = null /\
  emitted (fun j => step j ReloadClick)
    (run (mount demo_props demo_credentials)
       [IframeLoad (VHost 1) (Some demo_api); InitResolved;
        OpenRejected 0 (str "no image"); CredentialsChange None]) = [].
Proof.
  repeat split; vm_compute; reflexivity.
Qed.

(** C8 (amended): a click on the reload button of the error banner clears
    the error and increments the reload counter by exactly 1, which runs
    the initialization effect again: when the ApiHandle, the username, the
    password and the API key are all present, the destroy of the previous
    initialization is followed by exactly one new call of [init], and
    nothing else; when one of them is absent, nothing is destroyed and
    nothing is initialized. *)
Theorem reload_click_reinitializes (i : Instance) :
  reachable i ->
  mounted i = true ->
  truthy (error (state i)) = true ->
  initialized (state i) = true ->
  reload (state (step i ReloadClick)) = reload (state i) + 1 /\
  error (state (step i ReloadClick)) = null /\
  (init_inputs_present (props i) (state i) = true ->
     exists prev target api,
       init_hook i = Some (init_deps i, InitDestroy prev target) /\
       StreetSmartApi (state i) = Some api /\
       api_id prev = api_id api /\
       emitted (fun j => step j ReloadClick) i
       = destroy_calls prev target ++
         [ApiInit (api_id api) (init_options (props i) (state i))]) /\
  (init_inputs_present (props i) (state i) = false ->
     emitted (fun j => step j ReloadClick) i = []).
Proof.
  intros Hreach Hm He Hi.
  destruct (reachable_invariants i Hreach) as [Hc Hs].
  destruct (Hs Hm) as [[c Hih] [c' Hoh]].
  pose proof (no_uncaught i Hc) as Hu.
  pose proof (init_hook_matches i Hc _ _ Hih) as Hmatch.
  unfold init_cleanup_matches in Hmatch. rewrite <- init_inputs_present_guard in Hmatch.
  assert (Hhandle : handle i ReloadClick = reload_click i).
  { simpl. now rewrite Hm, Hi. }
  destruct (init_effect_calls_reload_click i Hm) as (Hp & Hcalls & Hr & Herr & Hod & Hid).
  pose proof (handle_frame i ReloadClick) as (Hjih & Hjoh & Hjm & _ & _).
  rewrite Hhandle in Hjih, Hjoh, Hjm.
  assert (Hic : deps_changed (init_hook (reload_click i)) (init_deps (reload_click i)) = true).
  { rewrite Hjih, Hih. simpl. apply bool_decide_eq_true. congruence. }
  assert (Hoc : deps_changed (open_hook (reload_click i)) (open_deps (reload_click i)) = false).
  { rewrite Hjoh, Hoh, Hod. simpl. apply bool_decide_eq_false. tauto. }
  assert (Hemit : emitted (fun j => step j ReloadClick) i
                  = init_cleanup_calls (Some (init_deps i, c)) ++
                    init_effect_calls (props i) (state i)).
  { rewrite emitted_step. unfold step_calls. rewrite Hu, Hm, Hhandle.
    unfold commit_calls. rewrite Hic, Hoc, Hjih, Hih, Hp, Hcalls. simpl.
    now rewrite app_nil_r. }
  assert (Hstep : step i ReloadClick = commit (reload_click i)).
  { unfold step. now rewrite Hu, Hhandle. }
  assert (Hstate : state (step i ReloadClick) = state (reload_click i) \/
                   state (step i ReloadClick) = setInitializing true (state (reload_click i))).
  { rewrite Hstep, commit_state by congruence.
    destruct (_ && _); [now right|now left]. }
  split; [|split; [|split]].
  - destruct Hstate as [-> | ->]; exact Hr.
  - destruct Hstate as [-> | ->]; exact Herr.
  - intros Hg. rewrite Hg in Hmatch. destruct Hmatch as (prev & target & -> & Hprev).
    unfold init_deps in Hprev. simpl in Hprev.
    destruct (StreetSmartApi (state i)) as [api|] eqn:Hapi; [|discriminate].
    exists prev, target, api. split; [exact Hih|]. split; [reflexivity|].
    simpl in Hprev. split; [congruence|].
    rewrite Hemit. unfold init_effect_calls. now rewrite Hapi, Hg.
  - intros Hg. rewrite Hg in Hmatch. subst c. rewrite Hemit. simpl.
    unfold init_effect_calls. rewrite Hg. now destruct (StreetSmartApi (state i)).
Qed.

Lemma reload_click_reinitializes_witness :
  reload (state (step (run (mount demo_props demo_credentials)
                         [IframeLoad (VHost 1) (Some demo_api); InitResolved;
                          OpenRejected 0 (str "no image")])
                      ReloadClick))
  = reload (state (run (mount demo_props demo_credentials)
                     [IframeLoad (VHost 1) (Some demo_api); InitResolved;
                      OpenRejected 0 (str "no image")])) + 1 /\
  exists prev target api,
    emitted (fun j => step j ReloadClick)
      (run (mount demo_props demo_credentials)
         [IframeLoad (VHost 1) (Some demo_api); InitResolved;
          OpenRejected 0 (str "no image")])
    = destroy_calls prev target ++
      [ApiInit (api_id api)
         (init_options demo_props
            (state (run (mount demo_props demo_credentials)
                      [IframeLoad (VHost 1) (Some demo_api); InitResolved;
                       OpenRejected 0 (str "no image")])))].
Proof.
  destruct (reload_click_reinitializes
              (run (mount demo_props demo_credentials)
                 [IframeLoad (VHost 1) (Some demo_api); InitResolved;
                  OpenRejected 0 (str "no image")]))
    as (Hreload & _ & Hpresent & _).
  - exists demo_props, demo_credentials,
      [IframeLoad (VHost 1) (Some demo_api); InitResolved;
       OpenRejected 0 (str "no image")].
    reflexivity.
  - reflexivity.
  - reflexivity.
  - reflexivity.
  - split; [exact Hreload|].
    destruct Hpresent as (prev & target & api & _ & _ & _ & Hemit); [reflexivity|].
    exists prev, target, api. exact Hemit.
Defined.

(** ** Teardown of a panorama session *)

Lemma open_cleanup_calls_inv (hook : option (OpenDeps * OpenCleanup))
    (vars : list OpenVars) (viewer : nat) (event : EventName) (handler : option Handler) :
  ViewerOff viewer event handler ∈ open_cleanup_calls hook vars ->
  exists d inst vs,
    hook = Some (d, OpenOff inst) /\ vars !! inst = Some vs /\
    panoramaViewer vs = Some viewer /\ viewChangeHandler vs <> None /\
    handler = match event with
              | VIEW_CHANGE => viewChangeHandler vs
              | RECORDING_CLICK => recordingClickHandler vs
              end.
Proof.
  destruct hook as [[d [|inst]]|]; simpl; try (intros []%elem_of_nil).
  destruct (vars !! inst) as [[[v|] [h|] other]|] eqn:Hlook;
    try (intros []%elem_of_nil).
  intros Hin. exists d, inst, {| panoramaViewer := Some v; viewChangeHandler := Some h;
                                 recordingClickHandler := other |}.
  apply elem_of_cons in Hin as [Heq|Hin].
  - injection Heq as -> -> ->. simpl. repeat split; congruence.
  - apply list_elem_of_singleton in Hin. injection Hin as -> -> ->.
    simpl. repeat split; congruence.
Qed.

Lemma vars_registered_viewer (inst : nat) (vars : OpenVars) (l : list Action)
    (viewer : nat) :
  vars_registered inst vars l -> panoramaViewer vars = Some viewer ->
  vars = {| panoramaViewer := Some viewer;
            viewChangeHandler := Some (ViewChange inst);
            recordingClickHandler := Some (RecordingClick inst) |} /\
  ViewerOn viewer VIEW_CHANGE (ViewChange inst) ∈ l /\
  ViewerOn viewer RECORDING_CLICK (RecordingClick inst) ∈ l.
Proof.
  intros [->|(v & -> & H1 & H2)] Hv; simpl in Hv; [discriminate|].
  injection Hv as ->. repeat split; assumption.
Qed.

(** Only the completion of [open] assigns the variables of a run, and it
    leaves the dependencies of the effects alone. *)
Lemma handle_vars_or_deps (i : Instance) (ev : Event) :
  open_vars (handle i ev) = open_vars i \/ open_deps (handle i ev) = open_deps i.
Proof.
  destruct ev as [p|target api|c| | |err|inst result|inst err|]; simpl.
  - left. now destruct (mounted i).
  - left. now rewrite !(proj1 (proj2 (proj2 (proj2 (set_state_frame _ _))))).
  - left. now rewrite !(proj1 (proj2 (proj2 (proj2 (set_state_frame _ _))))).
  - left. destruct (_ && _); [|reflexivity]. unfold reload_click.
    now rewrite !(proj1 (proj2 (proj2 (proj2 (set_state_frame _ _))))).
  - left. destruct (init_pending i); [reflexivity|]. unfold init_then.
    now rewrite !(proj1 (proj2 (proj2 (proj2 (set_state_frame _ _))))).
  - left. destruct (init_pending i); [reflexivity|]. unfold init_catch.
    rewrite exec_emit. simpl.
    now rewrite !(proj1 (proj2 (proj2 (proj2 (set_state_frame _ _))))).
  - right. case_bool_decide; [|reflexivity]. unfold open_then.
    destruct (first_viewer result); [rewrite exec_emit2|]; reflexivity.
  - left. case_bool_decide; [|reflexivity]. unfold open_catch.
    rewrite exec_emit. simpl.
    now rewrite !(proj1 (proj2 (proj2 (proj2 (set_state_frame _ _))))).
  - now left.
Qed.

Lemma calls_after_open (P Q : Action -> Prop) (front back pre post : list Action)
    (a : Action) :
  Forall (fun b => ~ P b) front -> Forall Q back -> P a ->
  front ++ back = pre ++ a :: post -> Forall Q post.
Proof.
  revert pre. induction front as [|x front IH]; intros pre Hf Hb Ha Heq; simpl in Heq.
  - subst back. apply Forall_app in Hb as [_ Hb]. now apply Forall_cons in Hb as [_ Hb].
  - apply Forall_cons in Hf as [Hx Hf]. destruct pre as [|y pre]; simpl in Heq.
    + injection Heq as -> _. contradiction.
    + injection Heq as _ Heq. eauto.
Qed.

Lemma Forall_not_off_open (l : list Action) :
  Forall (fun a => ~ is_init a /\ ~ is_off a /\ ~ is_open a) l ->
  Forall (fun a => ~ is_off a /\ ~ is_open a) l.
Proof. intros H. eapply Forall_impl; [exact H|]. simpl. tauto. Qed.

(** The calls of a step: the unsubscriptions of the session that is torn
    down stand between calls that neither unsubscribe nor open, and calls
    that do not unsubscribe. *)
Lemma step_calls_split (i : Instance) (ev : Event) :
  consistent i -> synced i ->
  exists front back,
    step_calls i ev
    = front ++
      (if open_teardown i ev
       then open_cleanup_calls (open_hook i) (open_vars i) else []) ++
      back /\
    Forall (fun a => ~ is_off a /\ ~ is_open a) front /\
    Forall (fun a => ~ is_off a) back.
Proof.
  intros Hc Hs. unfold step_calls, open_teardown. rewrite (no_uncaught i Hc).
  assert (Hhandle : Forall (fun a => ~ is_off a /\ ~ is_open a) (handle_calls i ev)).
  { eapply Forall_impl; [apply handle_calls_kind|]. simpl. tauto. }
  destruct (mounted i) eqn:Hm; simpl.
  2:{ exists (handle_calls i ev), []. rewrite app_nil_r.
      split; [reflexivity|]. split; [exact Hhandle|apply Forall_nil_2]. }
  assert (Hunmount : exists front back,
            init_cleanup_calls (init_hook i) ++
            open_cleanup_calls (open_hook i) (open_vars i)
            = front ++ open_cleanup_calls (open_hook i) (open_vars i) ++ back /\
            Forall (fun a => ~ is_off a /\ ~ is_open a) front /\
            Forall (fun a => ~ is_off a) back).
  { exists (init_cleanup_calls (init_hook i)), []. rewrite app_nil_r.
    split; [reflexivity|].
    split; [apply Forall_not_off_open, init_cleanup_calls_kind|apply Forall_nil_2]. }
  pose proof (handle_frame i ev) as (Hih & Hoh & _).
  destruct (Hs Hm) as [_ [c Hhook]].
  set (j := handle i ev) in *.
  assert (Hvars : deps_changed (open_hook i) (open_deps j) = true ->
                  open_vars j = open_vars i).
  { intros Hch. destruct (handle_vars_or_deps i ev) as [Hv|Hd]; [exact Hv|].
    fold j in Hd. rewrite Hhook, Hd in Hch. simpl in Hch.
    apply bool_decide_eq_true in Hch. now destruct Hch. }
  assert (Hcommit : exists front back,
            handle_calls i ev ++ commit_calls j
            = front ++
              (if deps_changed (open_hook i) (open_deps j)
               then open_cleanup_calls (open_hook i) (open_vars i) else []) ++
              back /\
            Forall (fun a => ~ is_off a /\ ~ is_open a) front /\
            Forall (fun a => ~ is_off a) back).
  { unfold commit_calls. rewrite Hoh.
    exists (handle_calls i ev ++
            (if deps_changed (init_hook j) (init_deps j)
             then init_cleanup_calls (init_hook j) else [])),
           ((if deps_changed (init_hook j) (init_deps j)
             then init_effect_calls (props j) (state j) else []) ++
            (if deps_changed (open_hook i) (open_deps j)
             then open_effect_calls (props j) (state j) else [])).
    split; [|split].
    - rewrite <- !app_assoc. do 2 f_equal.
      destruct (deps_changed (open_hook i) (open_deps j)) eqn:Hch; [|reflexivity].
      now rewrite (Hvars eq_refl).
    - apply Forall_app. split; [exact Hhandle|].
      apply Forall_if_nil, Forall_not_off_open, init_cleanup_calls_kind.
    - apply Forall_app. split; apply Forall_if_nil.
      + eapply Forall_impl; [apply init_effect_calls_kind|].
        intros a Ha. destruct a; simpl in *; tauto.
      + eapply Forall_impl; [apply open_effect_calls_kind|].
        intros a Ha. destruct a; simpl in *; tauto. }
  destruct ev; try exact Hcommit. exact Hunmount.
Qed.

(** C3: on every change of the ApiHandle, of [initialized] or of the
    imageId, and on unmount, the cleanup of the open-image effect
    unsubscribes the two handlers of the previous run from the viewer
    they were subscribed on, when that viewer and the handlers exist;
    it unsubscribes nothing else, and it does so before any new [open]
    is issued. *)
Theorem open_cleanup_unsubscribes_own_handlers (i : Instance) (ev : Event) :
  reachable i ->
  (forall viewer event handler,
     ViewerOff viewer event handler ∈ emitted (fun j => step j ev) i ->
     exists d inst vars,
       open_teardown i ev = true /\
       open_hook i = Some (d, OpenOff inst) /\
       open_vars i !! inst = Some vars /\
       panoramaViewer vars = Some viewer /\
       handler = Some (handler_of event inst) /\
       ViewerOn viewer event (handler_of event inst) ∈ log i) /\
  (forall d inst vars viewer,
     open_teardown i ev = true ->
     open_hook i = Some (d, OpenOff inst) ->
     open_vars i !! inst = Some vars ->
     panoramaViewer vars = Some viewer ->
     exists front back,
       emitted (fun j => step j ev) i
       = front ++
         [ViewerOff viewer VIEW_CHANGE (Some (ViewChange inst));
          ViewerOff viewer RECORDING_CLICK (Some (RecordingClick inst))] ++
         back /\
       Forall (fun a => ~ is_off a /\ ~ is_open a) front /\
       Forall (fun a => ~ is_off a) back) /\
  (forall pre a post,
     emitted (fun j => step j ev) i = pre ++ a :: post ->
     is_open a -> Forall (fun b => ~ is_off b) post).
Proof.
  intros Hreach. destruct (reachable_invariants i Hreach) as [Hc Hs].
  destruct (step_calls_split i ev Hc Hs) as (front & back & Hsplit & Hfront & Hback).
  rewrite emitted_step, Hsplit. split; [|split].
  - intros viewer event handler Hin.
    apply elem_of_app in Hin as [Hin|Hin].
    { rewrite Forall_forall in Hfront. apply Hfront in Hin. simpl in Hin. tauto. }
    apply elem_of_app in Hin as [Hin|Hin].
    2:{ rewrite Forall_forall in Hback. apply Hback in Hin. simpl in Hin. tauto. }
    destruct (open_teardown i ev); [|now apply elem_of_nil in Hin].
    apply open_cleanup_calls_inv in Hin
      as (d & inst & vars & Hhook & Hlook & Hviewer & _ & Hhandler).
    pose proof (open_vars_registered i Hc inst vars Hlook) as Hreg.
    destruct (vars_registered_viewer inst vars (log i) viewer Hreg Hviewer)
      as (Hvars & Hon1 & Hon2).
    exists d, inst, vars. repeat split; try assumption.
    + rewrite Hhandler, Hvars. now destruct event.
    + now destruct event.
  - intros d inst vars viewer Htear Hhook Hlook Hviewer. rewrite Htear.
    pose proof (open_vars_registered i Hc inst vars Hlook) as Hreg.
    destruct (vars_registered_viewer inst vars (log i) viewer Hreg Hviewer)
      as (Hvars & _).
    exists front, back. split; [|now split].
    unfold open_cleanup_calls. rewrite Hhook, Hlook, Hvars. reflexivity.
  - intros pre a post Heq Ha. rewrite app_assoc in Heq.
    refine (calls_after_open is_open (fun b => ~ is_off b) _ _ _ _ _ _ Hback Ha Heq).
    apply Forall_app. split.
    + eapply Forall_impl; [exact Hfront|]. simpl. tauto.
    + destruct (open_teardown i ev); [|apply Forall_nil_2].
      eapply Forall_impl; [apply open_cleanup_calls_kind|].
      intros b Hb. destruct b; simpl in *; tauto.
Qed.

Lemma open_cleanup_unsubscribes_own_handlers_witness :
  exists front back,
    emitted (fun j => step j (Render {| apiKey := PStr "key"; imageId := PStr "img-2";
                                        mapPointVisible := PBool true;
                                        initOptions := VObj ∅ |}))
      (run (mount demo_props demo_credentials)
         [IframeLoad (VHost 1) (Some demo_api); InitResolved;
          OpenResolved 0 (Some [Some 3%nat])])
    = front ++
      [ViewerOff 3 VIEW_CHANGE (Some (ViewChange 0));
       ViewerOff 3 RECORDING_CLICK (Some (RecordingClick 0))] ++
      back /\
    Forall (fun a => ~ is_off a /\ ~ is_open a) front /\
    Forall (fun a => ~ is_off a) back.
Proof.
  destruct (open_cleanup_unsubscribes_own_handlers
              (run (mount demo_props demo_credentials)
                 [IframeLoad (VHost 1) (Some demo_api); InitResolved;
                  OpenResolved 0 (Some [Some 3%nat])])
              (Render {| apiKey := PStr "key"; imageId := PStr "img-2";
                         mapPointVisible := PBool true; initOptions := VObj ∅ |}))
    as (_ & Hboth & _).
  - exists demo_props, demo_credentials,
      [IframeLoad (VHost 1) (Some demo_api); InitResolved;
       OpenResolved 0 (Some [Some 3%nat])].
    reflexivity.
  - apply (Hboth (open_deps (run (mount demo_props demo_credentials)
                    [IframeLoad (VHost 1) (Some demo_api); InitResolved;
                     OpenResolved 0 (Some [Some 3%nat])]))
                 0%nat
                 {| panoramaViewer := Some 3%nat;
                    viewChangeHandler := Some (ViewChange 0);
                    recordingClickHandler := Some (RecordingClick 0) |}
                 3%nat); reflexivity.
Defined.

(** ** A session, from mount to unmount *)

Example session_log :
  log (run (mount demo_props demo_credentials)
         [IframeLoad (VHost 1) (Some demo_api); InitResolved;
          OpenResolved 0 (Some [Some 3%nat]);
          Render {| apiKey := PStr "key"; imageId := PStr "img-2";
                    mapPointVisible := PBool true; initOptions := VObj ∅ |};
          Unmount])
  = [ApiInit 7 (VObj {[ "targetElement"%string := VHost 1;
                        "username"%string := str "user";
                        "password"%string := str "secret";
                        "apiKey"%string := str "key";
                        "loginOauth"%string := VPrim (PBool false);
                        "srs"%string := str "EPSG:4326";
                        "locale"%string := str "en-us" ]});
     ApiOpen 7 (str "img-1") (panorama_options demo_api "EPSG:4326");
     ViewerOn 3 VIEW_CHANGE (ViewChange 0);
     ViewerOn 3 RECORDING_CLICK (RecordingClick 0);
     ViewerOff 3 VIEW_CHANGE (Some (ViewChange 0));
     ViewerOff 3 RECORDING_CLICK (Some (RecordingClick 0));
     ApiOpen 7 (str "img-2") (panorama_options demo_api "EPSG:4326");
     ApiDestroy 7 (VObj {[ "targetElement"%string := VHost 1 ]})].
Proof. vm_compute. reflexivity. Qed.

(** The options of the host override the fixed ones. *)
Example init_options_override :
  opt_get (init_options
             {| apiKey := PStr "key"; imageId := PUndefined; mapPointVisible := PBool true;
                initOptions := VObj {[ "locale"%string := str "nl" ]} |}
             demo_initialized) "locale" = str "nl" /\
  opt_get (init_options demo_props demo_initialized) "locale" = str "en-us".
Proof. split; reflexivity. Qed.

(** An array of messages is searched for the text as an element. *)
Example getErrorMessage_array :
  getErrorMessage (VArr [str "first"; str unauthorized])
  = Normal (Message "streetView.cyclomedia.invalidCredentials").
Proof. reflexivity. Qed.

(** A completion of [open] that arrives after the teardown of its run
    still subscribes the two handlers; no later cleanup reads the
    variables of that run. *)
Example late_open_completion :
  emitted (fun j => step j (OpenResolved 0 (Some [Some 3%nat])))
    (run (mount demo_props demo_credentials)
       [IframeLoad (VHost 1) (Some demo_api); InitResolved; Unmount])
  = [ViewerOn 3 VIEW_CHANGE (ViewChange 0);
     ViewerOn 3 RECORDING_CLICK (RecordingClick 0)].
Proof. vm_compute. reflexivity. Qed.

(** * Further properties of the component *)

(** ** What one render shows *)

Lemma emptyView_rendered (p : Props) (st : State) :
  is_Some (emptyView (CyclomediaView p st)) -> showEmptyView p st = true.
Proof.
  unfold CyclomediaView; cbn [emptyView].
  destruct (showEmptyView p st); [reflexivity|]. intros [x Hx]. discriminate.
Qed.

(** X1: of the empty state, the panorama viewer and the error alert, a
    render shows at most one. *)
Theorem views_exclusive (p : Props) (st : State) :
  ~ (iframeDisplay (CyclomediaView p st) = "block"%string /\
     alertDisplay (CyclomediaView p st) = "block"%string) /\
  ~ (is_Some (emptyView (CyclomediaView p st)) /\
     iframeDisplay (CyclomediaView p st) = "block"%string) /\
  ~ (is_Some (emptyView (CyclomediaView p st)) /\
     alertDisplay (CyclomediaView p st) = "block"%string).
Proof.
  split; [|split].
  - unfold CyclomediaView; cbn [iframeDisplay alertDisplay].
    rewrite truthy_showPanoramaViewer.
    destruct (truthy (error st)); [|intros [_ H]; discriminate].
    rewrite andb_false_r. intros [H _]. discriminate.
  - intros [Hempty Hframe]. apply emptyView_rendered in Hempty.
    unfold CyclomediaView in Hframe; cbn [iframeDisplay] in Hframe.
    unfold showEmptyView in Hempty.
    destruct (truthy (showPanoramaViewer p st)); [|discriminate].
    rewrite andb_false_r in Hempty. discriminate.
  - intros [Hempty Halert]. apply emptyView_rendered in Hempty.
    unfold CyclomediaView in Halert; cbn [alertDisplay] in Halert.
    unfold showEmptyView in Hempty.
    destruct (truthy (error st)); [|discriminate].
    rewrite andb_false_r in Hempty. discriminate.
Qed.

(** X2: with credentials and no error, the panel is blank (no empty
    state and no viewer) exactly when the API is loaded and the component
    is neither initializing nor initialized. *)
Theorem blank_panel_iff (p : Props) (st : State) :
  prim_truthy (username st) = true ->
  prim_truthy (password st) = true ->
  truthy (error st) = false ->
  (emptyView (CyclomediaView p st) = None /\
   iframeDisplay (CyclomediaView p st) = "none"%string) <->
  (is_Some (StreetSmartApi st) /\ initialized st = false /\ initializing st = false).
Proof.
  intros Hu Hp He.
  pose proof (showEmptyView_eq p st Hu Hp He) as Hshow.
  unfold CyclomediaView; cbn [emptyView iframeDisplay].
  rewrite Hshow, truthy_showPanoramaViewer, Hu, Hp, He. simpl. rewrite !andb_true_r.
  unfold EmptyView.
  destruct (StreetSmartApi st) as [api|]; simpl.
  - destruct (initialized st), (initializing st), (prim_truthy (imageId p)),
             (prim_truthy (mapPointVisible p)); simpl;
      split; try (intros [? ?]; discriminate); try (intros (_ & ? & ?); discriminate);
      intros _; repeat split; eauto.
  - destruct (initialized st), (initializing st), (prim_truthy (mapPointVisible p)); simpl;
      split; try (intros [? ?]; discriminate); intros ([x Hx] & _); discriminate.
Qed.

Lemma blank_panel_iff_witness :
  emptyView (CyclomediaView
               {| apiKey := PUndefined; imageId := PStr "img-1";
                  mapPointVisible := PBool true; initOptions := VObj ∅ |}
               {| StreetSmartApi := Some demo_api; targetElement := VHost 1;
                  initializing := false; initialized := false; reload := 1;
                  error := null; credentials := demo_credentials |}) = None.
Proof.
  apply (proj2 (blank_panel_iff
                  {| apiKey := PUndefined; imageId := PStr "img-1";
                     mapPointVisible := PBool true; initOptions := VObj ∅ |}
                  {| StreetSmartApi := Some demo_api; targetElement := VHost 1;
                     initializing := false; initialized := false; reload := 1;
                     error := null; credentials := demo_credentials |}
                  eq_refl eq_refl eq_refl)).
  repeat split. exists demo_api. reflexivity.
Defined.

(** X3: while the username or the password is missing, neither the
    empty state nor the panorama viewer is shown, whatever the rest of
    the state is. *)
Theorem credentials_missing_hides_views (p : Props) (st : State) :
  prim_truthy (username st) = false \/ prim_truthy (password st) = false ->
  showCredentialsForm st = true /\
  emptyView (CyclomediaView p st) = None /\
  iframeDisplay (CyclomediaView p st) = "none"%string.
Proof.
  intros Hmissing.
  assert (Hform : showCredentialsForm st = true).
  { unfold showCredentialsForm, hasCredentials. rewrite truthy_js_and. simpl.
    destruct Hmissing as [-> | ->]; [reflexivity|]. now rewrite andb_false_r. }
  split; [exact Hform|].
  unfold CyclomediaView; cbn [emptyView iframeDisplay].
  unfold showEmptyView. rewrite Hform. simpl.
  rewrite truthy_showPanoramaViewer.
  destruct Hmissing as [-> | ->]; rewrite ?andb_false_r; simpl; now split.
Qed.

Lemma credentials_missing_hides_views_witness :
  emptyView (CyclomediaView demo_props (state (initial demo_props None))) = None.
Proof.
  apply (credentials_missing_hides_views demo_props (state (initial demo_props None))).
  left. reflexivity.
Defined.

(** ** Error payloads that are arrays *)

Lemma is_str_true (needle : string) (x : val) :
  is_str needle x = true <-> x = str needle.
Proof.
  destruct x as [[| |b|n|s]|elems|props|ref]; simpl;
    try (split; [discriminate|intros [=]]).
  split.
  - intros H. apply String.eqb_eq in H. now subst.
  - intros [= ->]. apply String.eqb_refl.
Qed.

Lemma arr_indexOf_range (needle : string) (elems : list val) : forall from,
  arr_indexOf needle elems from = -1 \/ from <= arr_indexOf needle elems from.
Proof.
  induction elems as [|x elems IH]; intros from; simpl; [now left|].
  destruct (is_str needle x); [right; lia|].
  destruct (IH (from + 1)) as [H|H]; [now left|right; lia].
Qed.

Lemma arr_indexOf_found (needle : string) (elems : list val) : forall from,
  0 <= from ->
  (0 <=? arr_indexOf needle elems from) = true <-> str needle ∈ elems.
Proof.
  induction elems as [|x elems IH]; intros from Hfrom; simpl.
  - split; [discriminate|intros []%elem_of_nil].
  - destruct (is_str needle x) eqn:Hx.
    + apply is_str_true in Hx. subst x. split; [intros _; now left|].
      intros _. apply Z.leb_le. exact Hfrom.
    + rewrite IH by lia. split; [intros H; now right|].
      intros [Heq|Hin]%elem_of_cons; [|exact Hin].
      symmetry in Heq. apply is_str_true in Heq. congruence.
Qed.

(** X4: for a payload that is an array, the localized invalid-credentials
    message is returned exactly when the text of the unauthorized failure
    is one of its elements (as a whole element, not as a part of one);
    otherwise the result is "Unknown error". *)
Theorem getErrorMessage_array_payload (elems : list val) :
  (str unauthorized ∈ elems ->
     getErrorMessage (VArr elems)
     = Normal (Message "streetView.cyclomedia.invalidCredentials")) /\
  (str unauthorized ∉ elems ->
     getErrorMessage (VArr elems) = Normal (Text (str "Unknown error"))).
Proof.
  unfold getErrorMessage. cbn [opt_call_indexOf ge_zero].
  pose proof (arr_indexOf_found unauthorized elems 0 (Z.le_refl 0)) as Hfound.
  destruct (0 <=? arr_indexOf unauthorized elems 0).
  - split; [reflexivity|]. intros Hnot. exfalso. apply Hnot, Hfound. reflexivity.
  - split; [|reflexivity]. intros Hin. apply Hfound in Hin. discriminate.
Qed.

Lemma getErrorMessage_array_payload_witness :
  getErrorMessage (VArr [str ("x" +:+ unauthorized)])
  = Normal (Text (str "Unknown error")).
Proof.
  apply (proj2 (getErrorMessage_array_payload [str ("x" +:+ unauthorized)])).
  intros Hin. apply list_elem_of_singleton in Hin. discriminate.
Defined.

(** ** The inputs of a render *)

(** X5: reading the image identifier off the [location] prop fails for
    [null] only; everywhere else it is [location.properties.imageId], and
    [undefined] when the location is missing or has no properties. *)
Theorem imageId_of_location_total_but_null (location : val) :
  (location = null <-> exists e, imageId_of_location location = Throw e) /\
  (location <> null ->
     imageId_of_location location
     = Normal (opt_get (opt_get location "properties") "imageId")) /\
  (location <> null -> nullish (opt_get location "properties") = true ->
     imageId_of_location location = Normal undefined).
Proof.
  assert (Hvalue : location <> null ->
            imageId_of_location location
            = Normal (opt_get (opt_get location "properties") "imageId")).
  { intros Hnn. unfold imageId_of_location, destructure, coalesce.
    destruct location as [[| |b|n|s]|elems|props|ref]; try contradiction; simpl;
      try reflexivity;
      try (destruct (String.eqb "properties" "length"); reflexivity).
    destruct (props !! "properties"%string) as [v|]; simpl; [|reflexivity].
    destruct (nullish v) eqn:Hv; simpl; [|now rewrite Hv].
    destruct v as [[]| | |]; try discriminate; reflexivity. }
  split; [|split].
  - split.
    + intros ->. eexists. reflexivity.
    + intros [e He].
      destruct location as [[| |b|n|s]|elems|props|ref]; try reflexivity;
        rewrite Hvalue in He by discriminate; discriminate.
  - exact Hvalue.
  - intros Hnn Hprops. rewrite (Hvalue Hnn).
    destruct (opt_get location "properties") as [[]| | |]; try discriminate; reflexivity.
Qed.

Lemma imageId_of_location_total_but_null_witness :
  imageId_of_location
    (VObj {[ "properties"%string := VObj {[ "imageId"%string := str "img-1" ]} ]})
  = Normal (str "img-1") /\
  imageId_of_location undefined = Normal undefined.
Proof.
  split.
  - rewrite (proj1 (proj2 (imageId_of_location_total_but_null
                             (VObj {[ "properties"%string :=
                                        VObj {[ "imageId"%string := str "img-1" ]} ]}))))
      by discriminate.
    reflexivity.
  - apply (proj2 (proj2 (imageId_of_location_total_but_null undefined)));
      [discriminate|reflexivity].
Defined.

Lemma init_options_union (p : Props) (st : State) :
  init_options p st = VObj (own_props (initOptions p) ∪ fixed_init_options p st).
Proof. reflexivity. Qed.

(** X6: in the argument of [init] an option of the host wins over the
    fixed field of the same name, and every name the host does not set
    keeps its fixed value; without options of the host the argument is
    exactly the seven fixed fields. *)
Theorem init_options_merge (p : Props) (st : State) (name : string) :
  (forall v, own_props (initOptions p) !! name = Some v ->
     opt_get (init_options p st) name = v) /\
  (own_props (initOptions p) !! name = None ->
     opt_get (init_options p st) name = of_option (fixed_init_options p st !! name)) /\
  (forall providerSettings,
     initOptions p = initOptions_of providerSettings ->
     nullish (opt_get providerSettings "initOptions") = true ->
     init_options p st = VObj (fixed_init_options p st)).
Proof.
  rewrite init_options_union. split; [|split].
  - intros v Hv. simpl. now rewrite (lookup_union_Some_l _ _ _ _ Hv).
  - intros Hnone. simpl. now rewrite (lookup_union_r _ _ _ Hnone).
  - intros ps Hp Hnull. rewrite Hp. unfold initOptions_of, coalesce.
    assert (Hget : opt_get (default_param ps (VObj ∅)) "initOptions"
                   = opt_get ps "initOptions").
    { destruct ps as [[]| | |]; reflexivity. }
    rewrite Hget, Hnull. simpl. now rewrite (left_id_L ∅ (∪)).
Qed.

Lemma init_options_merge_witness :
  opt_get (init_options
             {| apiKey := PStr "key"; imageId := PUndefined; mapPointVisible := PBool true;
                initOptions := VObj {[ "srs"%string := str "EPSG:28992" ]} |}
             demo_initialized) "srs" = str "EPSG:28992" /\
  opt_get (init_options
             {| apiKey := PStr "key"; imageId := PUndefined; mapPointVisible := PBool true;
                initOptions := VObj {[ "srs"%string := str "EPSG:28992" ]} |}
             demo_initialized) "loginOauth" = VPrim (PBool false).
Proof.
  split.
  - apply (proj1 (init_options_merge
                    {| apiKey := PStr "key"; imageId := PUndefined;
                       mapPointVisible := PBool true;
                       initOptions := VObj {[ "srs"%string := str "EPSG:28992" ]} |}
                    demo_initialized "srs")).
    reflexivity.
  - apply (proj1 (proj2 (init_options_merge
                    {| apiKey := PStr "key"; imageId := PUndefined;
                       mapPointVisible := PBool true;
                       initOptions := VObj {[ "srs"%string := str "EPSG:28992" ]} |}
                    demo_initialized "loginOauth"))).
    reflexivity.
Defined.

(** ** What an event does to the state *)

Lemma handle_state_eq (i : Instance) (ev : Event) :
  state (handle i ev)
  = if mounted i then
      match ev with
      | IframeLoad target api => setStreetSmartApi api (setTargetElement target (state i))
      | CredentialsChange c => setCredentials c (state i)
      | ReloadClick =>
          if initialized (state i)
          then setReload (reload (state i) + 1) (setError null (state i))
          else state i
      | InitResolved =>
          match init_pending i with
          | O => state i
          | S _ => setInitialized true (setInitializing false (state i))
          end
      | InitRejected err =>
          match init_pending i with
          | O => state i
          | S _ => setError err (setInitializing false (state i))
          end
      | OpenRejected inst err =>
          if bool_decide (inst ∈ open_pending i) then setError err (state i) else state i
      | _ => state i
      end
    else state i.
Proof.
  destruct (mounted i) eqn:Hm;
    destruct ev as [p|target api|c| | |err|inst result|inst err|]; simpl;
    rewrite ?Hm; simpl;
    unfold reload_click, init_then, init_catch, open_then, open_catch, settle, set_state;
    try case_bool_decide;
    destruct (init_pending i);
    try match goal with
        | |- context [first_viewer ?r] => destruct (first_viewer r)
        end;
    try match goal with
        | |- context [if initialized ?st then _ else _] => destruct (initialized st)
        end;
    rewrite ?exec_emit, ?exec_emit2; simpl; rewrite ?Hm; simpl; rewrite ?Hm;
    reflexivity.
Qed.

Lemma step_state (i : Instance) (ev : Event) :
  state (step i ev) = state i \/
  state (step i ev) = state (handle i ev) \/
  state (step i ev) = setInitializing true (state (handle i ev)).
Proof.
  unfold step. destruct (uncaught i); [now left|].
  assert (Hcommit : state (commit (handle i ev)) = state (handle i ev) \/
                    state (commit (handle i ev))
                    = setInitializing true (state (handle i ev))).
  { destruct (mounted (handle i ev)) eqn:Hm.
    - rewrite (commit_state _ Hm). destruct (_ && _); auto.
    - rewrite commit_unmounted by exact Hm. now left. }
  destruct ev; try (right; exact Hcommit).
  left. apply unmount_frame.
Qed.

(** X7: [initialized] is never reset: once the component is initialized
    it stays so through every later event, a change of credentials, a new
    API handle, a failed initialization and a reload included. *)
Theorem initialized_never_reset (evs : list Event) : forall i,
  initialized (state i) = true -> initialized (state (run i evs)) = true.
Proof.
  induction evs as [|ev evs IH]; intros i Hi; simpl; [exact Hi|].
  apply IH.
  assert (Hhandle : initialized (state (handle i ev)) = true).
  { rewrite handle_state_eq.
    destruct (mounted i); [|exact Hi].
    destruct ev as [p|target api|c| | |err|inst result|inst err|]; simpl; try exact Hi.
    - rewrite Hi. exact Hi.
    - destruct (init_pending i); [exact Hi|reflexivity].
    - destruct (init_pending i); exact Hi.
    - case_bool_decide; exact Hi. }
  destruct (step_state i ev) as [-> | [-> | ->]]; assumption.
Qed.

Lemma initialized_never_reset_witness :
  initialized
    (state (run (run (mount demo_props demo_credentials)
                   [IframeLoad (VHost 1) (Some demo_api); InitResolved])
              [CredentialsChange None; InitRejected (str unauthorized);
               IframeLoad undefined None])) = true.
Proof.
  apply (initialized_never_reset
           [CredentialsChange None; InitRejected (str unauthorized);
            IframeLoad undefined None]).
  reflexivity.
Defined.

(** X8: the error is changed by three events only: a rejected [init] or
    [open] sets it to the payload of the rejection, and a click on the
    reload button sets it to [null]; in particular an initialization that
    succeeds later leaves an earlier error in place. *)
Theorem error_changes_only_by (i : Instance) (ev : Event) :
  (error (state (step i ev)) = error (state i) \/
   (exists err, (ev = InitRejected err \/ exists inst, ev = OpenRejected inst err) /\
                error (state (step i ev)) = err) \/
   (ev = ReloadClick /\ error (state (step i ev)) = null)) /\
  (ev = InitResolved -> error (state (step i ev)) = error (state i)).
Proof.
  assert (Hstep : error (state (step i ev)) = error (state i) \/
                  error (state (step i ev)) = error (state (handle i ev))).
  { destruct (step_state i ev) as [-> | [-> | ->]]; auto. }
  split.
  - destruct Hstep as [H|H]; [now left|]. rewrite H, handle_state_eq.
    destruct (mounted i); [|now left].
    destruct ev as [p|target api|c| | |err|inst result|inst err|]; simpl; try (now left).
    + destruct (initialized (state i)); [|now left].
      right; right. now split.
    + destruct (init_pending i); [now left|now left].
    + destruct (init_pending i); [now left|].
      right; left. exists err. split; [now left|reflexivity].
    + case_bool_decide; [|now left].
      right; left. exists err. split; [right; now exists inst|reflexivity].
  - intros ->. destruct Hstep as [H|H]; [exact H|]. rewrite H, handle_state_eq.
    destruct (mounted i); [|reflexivity]. now destruct (init_pending i).
Qed.

Lemma error_changes_only_by_witness :
  error (state (step (run (mount demo_props demo_credentials)
                        [IframeLoad (VHost 1) (Some demo_api);
                         InitRejected (str unauthorized);
                         CredentialsChange
                           (Some {| cred_username := PStr "user";
                                    cred_password := PStr "right" |})])
                     InitResolved))
  = str unauthorized.
Proof.
  rewrite (proj2 (error_changes_only_by
                    (run (mount demo_props demo_credentials)
                       [IframeLoad (VHost 1) (Some demo_api);
                        InitRejected (str unauthorized);
                        CredentialsChange
                          (Some {| cred_username := PStr "user";
                                   cred_password := PStr "right" |})])
                    InitResolved) eq_refl).
  reflexivity.
Defined.

Lemma run_reload_lower_bound (evs : list Event) : forall i,
  1 <= reload (state i) -> 1 <= reload (state (run i evs)).
Proof.
  induction evs as [|ev evs IH]; intros i Hi; simpl; [exact Hi|].
  apply IH.
  assert (Hhandle : 1 <= reload (state (handle i ev))).
  { rewrite handle_state_eq.
    destruct (mounted i); [|exact Hi].
    destruct ev as [p|target api|c| | |err|inst result|inst err|]; simpl; try exact Hi.
    - destruct (initialized (state i)); simpl; lia.
    - destruct (init_pending i); exact Hi.
    - destruct (init_pending i); exact Hi.
    - case_bool_decide; exact Hi. }
  destruct (step_state i ev) as [-> | [-> | ->]]; assumption.
Qed.

(** X9: the reload counter starts at 1 and never decreases: a step
    leaves it as it is, except a click on the reload button of an
    initialized component, which adds exactly 1, whether an error is
    shown or not, and clears the error. *)
Theorem reload_counter_steps (i : Instance) (ev : Event) :
  (reload (state (step i ev)) = reload (state i) \/
   (ev = ReloadClick /\ initialized (state i) = true /\
    reload (state (step i ev)) = reload (state i) + 1)) /\
  (uncaught i = None -> mounted i = true -> initialized (state i) = true ->
   reload (state (step i ReloadClick)) = reload (state i) + 1 /\
   error (state (step i ReloadClick)) = null) /\
  (reachable i -> 1 <= reload (state i)).
Proof.
  split; [|split].
  - assert (Hstep : reload (state (step i ev)) = reload (state i) \/
                    reload (state (step i ev)) = reload (state (handle i ev))).
    { destruct (step_state i ev) as [-> | [-> | ->]]; auto. }
    destruct Hstep as [H|H]; [now left|]. rewrite H, handle_state_eq.
    destruct (mounted i); [|now left].
    destruct ev as [p|target api|c| | |err|inst result|inst err|]; simpl; try (now left).
    + destruct (initialized (state i)) eqn:Hi; simpl; [|now left].
      right. repeat split.
    + destruct (init_pending i); now left.
    + destruct (init_pending i); now left.
    + case_bool_decide; now left.
  - intros Hu Hm Hi.
    assert (Hhandle : state (handle i ReloadClick)
                      = setReload (reload (state i) + 1) (setError null (state i))).
    { rewrite handle_state_eq, Hm, Hi. reflexivity. }
    assert (Hmounted : mounted (handle i ReloadClick) = true).
    { pose proof (handle_frame i ReloadClick) as (_ & _ & Hjm & _). now rewrite Hjm. }
    unfold step. rewrite Hu, (commit_state _ Hmounted), Hhandle.
    destruct (_ && _); split; reflexivity.
  - intros (p & stored & evs & ->). apply run_reload_lower_bound.
    unfold mount.
    assert (Hc : state (commit (initial p stored)) = state (initial p stored) \/
                 state (commit (initial p stored))
                 = setInitializing true (state (initial p stored))).
    { rewrite commit_state by reflexivity. destruct (_ && _); auto. }
    destruct Hc as [-> | ->]; simpl; lia.
Qed.

Lemma reload_counter_steps_witness :
  reload (state (step (run (mount demo_props demo_credentials)
                         [IframeLoad (VHost 1) (Some demo_api); InitResolved])
                   ReloadClick))
  = reload (state (run (mount demo_props demo_credentials)
                     [IframeLoad (VHost 1) (Some demo_api); InitResolved])) + 1 /\
  1 <= reload (state (run (mount demo_props demo_credentials)
                        [IframeLoad (VHost 1) (Some demo_api); InitResolved;
                         OpenRejected 0 (str "no image"); ReloadClick])).
Proof.
  split.
  - apply (proj1 (proj2 (reload_counter_steps
                           (run (mount demo_props demo_credentials)
                              [IframeLoad (VHost 1) (Some demo_api); InitResolved])
                           ReloadClick))); vm_compute; reflexivity.
  - apply (proj2 (proj2 (reload_counter_steps
                           (run (mount demo_props demo_credentials)
                              [IframeLoad (VHost 1) (Some demo_api); InitResolved;
                               OpenRejected 0 (str "no image"); ReloadClick])
                           Unmount))).
    exists demo_props, demo_credentials,
      [IframeLoad (VHost 1) (Some demo_api); InitResolved;
       OpenRejected 0 (str "no image"); ReloadClick].
    reflexivity.
Defined.

(** ** Where the calls of a step come from *)

Lemma step_calls_sources (i : Instance) (ev : Event) (a : Action) :
  a ∈ step_calls i ev ->
  uncaught i = None /\
  (a ∈ handle_calls i ev \/
   (mounted i = true /\ a ∈ init_cleanup_calls (init_hook i)) \/
   (mounted i = true /\ a ∈ open_cleanup_calls (open_hook i) (open_vars (handle i ev))) \/
   (mounted i = true /\ step i ev = commit (handle i ev) /\
    deps_changed (init_hook i) (init_deps (handle i ev)) = true /\
    a ∈ init_effect_calls (props (handle i ev)) (state (handle i ev))) \/
   (mounted i = true /\ step i ev = commit (handle i ev) /\
    deps_changed (open_hook i) (open_deps (handle i ev)) = true /\
    a ∈ open_effect_calls (props (handle i ev)) (state (handle i ev)))).
Proof.
  unfold step_calls, step. destruct (uncaught i) eqn:Hu; [intros []%elem_of_nil|].
  intros Hin. split; [reflexivity|].
  destruct (mounted i) eqn:Hm; [|now left].
  pose proof (handle_frame i ev) as (Hih & Hoh & _).
  assert (Hcommit : a ∈ handle_calls i ev ++ commit_calls (handle i ev) ->
    a ∈ handle_calls i ev \/
    (true = true /\ a ∈ init_cleanup_calls (init_hook i)) \/
    (true = true /\ a ∈ open_cleanup_calls (open_hook i) (open_vars (handle i ev))) \/
    (true = true /\ commit (handle i ev) = commit (handle i ev) /\
     deps_changed (init_hook i) (init_deps (handle i ev)) = true /\
     a ∈ init_effect_calls (props (handle i ev)) (state (handle i ev))) \/
    (true = true /\ commit (handle i ev) = commit (handle i ev) /\
     deps_changed (open_hook i) (open_deps (handle i ev)) = true /\
     a ∈ open_effect_calls (props (handle i ev)) (state (handle i ev)))).
  { unfold commit_calls. rewrite Hih, Hoh.
    intros [H|H]%elem_of_app; [now left|right].
    apply elem_of_app in H as [H|H].
    { left. destruct (deps_changed (init_hook i) _); [now split|].
      now apply elem_of_nil in H. }
    right. apply elem_of_app in H as [H|H].
    { left. destruct (deps_changed (open_hook i) _); [now split|].
      now apply elem_of_nil in H. }
    right. apply elem_of_app in H as [H|H].
    { left. destruct (deps_changed (init_hook i) _); [now repeat split|].
      now apply elem_of_nil in H. }
    right. destruct (deps_changed (open_hook i) _); [now repeat split|].
    now apply elem_of_nil in H. }
  destruct ev; try (apply Hcommit; exact Hin).
  right. simpl. apply elem_of_app in Hin as [H|H]; [left|right; left]; now split.
Qed.

Lemma commit_keeps_inputs (i : Instance) :
  props (commit i) = props i /\
  StreetSmartApi (state (commit i)) = StreetSmartApi (state i) /\
  initialized (state (commit i)) = initialized (state i) /\
  error (state (commit i)) = error (state i) /\
  credentials (state (commit i)) = credentials (state i).
Proof.
  split; [apply commit_props|].
  destruct (mounted i) eqn:Hm.
  - rewrite (commit_state i Hm). destruct (_ && _); repeat split.
  - rewrite (commit_unmounted i Hm). repeat split.
Qed.

(** X10: [open] is called only when the ApiHandle, the imageId and
    [initialized] are all present, with the imageId as query, the
    spatial reference EPSG:4326 and the fixed panorama options; a step
    that ends with one of the three absent calls no [open]. *)
Theorem open_only_when_inputs_present (i : Instance) (ev : Event) :
  (forall api query options,
     ApiOpen api query options ∈ emitted (fun j => step j ev) i ->
     open_inputs_present (props (step i ev)) (state (step i ev)) = true /\
     query = VPrim (imageId (props (step i ev))) /\
     exists handle,
       StreetSmartApi (state (step i ev)) = Some handle /\
       api = api_id handle /\
       options = panorama_options handle "EPSG:4326" /\
       opt_get options "srs" = str "EPSG:4326") /\
  (open_inputs_present (props (step i ev)) (state (step i ev)) = false ->
     Forall (fun a => ~ is_open a) (emitted (fun j => step j ev) i)).
Proof.
  assert (Hcall : forall api query options,
     ApiOpen api query options ∈ emitted (fun j => step j ev) i ->
     open_inputs_present (props (step i ev)) (state (step i ev)) = true /\
     query = VPrim (imageId (props (step i ev))) /\
     exists handle,
       StreetSmartApi (state (step i ev)) = Some handle /\
       api = api_id handle /\
       options = panorama_options handle "EPSG:4326" /\
       opt_get options "srs" = str "EPSG:4326").
  { intros api query options. rewrite emitted_step. intros Hin.
    apply step_calls_sources in Hin as (_ & [H|[[_ H]|[[_ H]|[(_ & _ & _ & H)|H]]]]).
    - pose proof (handle_calls_kind i ev) as K. rewrite Forall_forall in K.
      apply K in H. simpl in H. tauto.
    - pose proof (init_cleanup_calls_kind (init_hook i)) as K.
      rewrite Forall_forall in K. apply K in H. simpl in H. tauto.
    - pose proof (open_cleanup_calls_kind (open_hook i) (open_vars (handle i ev))) as K.
      rewrite Forall_forall in K. apply K in H. contradiction.
    - pose proof (init_effect_calls_kind (props (handle i ev)) (state (handle i ev))) as K.
      rewrite Forall_forall in K. apply K in H. contradiction.
    - destruct H as (_ & -> & _ & H).
      destruct (commit_keeps_inputs (handle i ev)) as (Hp & Ha & Hi & _).
      unfold open_inputs_present. rewrite Hp, Ha, Hi.
      fold (open_inputs_present (props (handle i ev)) (state (handle i ev))).
      unfold open_effect_calls in H.
      destruct (StreetSmartApi (state (handle i ev))) as [handle|];
        [|now apply elem_of_nil in H].
      destruct (open_inputs_present _ _); [|now apply elem_of_nil in H].
      apply list_elem_of_singleton in H. injection H as -> -> ->.
      split; [reflexivity|]. split; [reflexivity|].
      exists handle. repeat split. }
  split; [exact Hcall|].
  intros Habsent. apply Forall_forall. intros a Hin Ha.
  destruct a as [| | | |api query options| | |]; simpl in Ha; try contradiction.
  apply Hcall in Hin as [Hpresent _]. congruence.
Qed.

Lemma open_only_when_inputs_present_witness :
  Forall (fun a => ~ is_open a)
    (emitted (fun j => step j (IframeLoad (VHost 1) (Some demo_api)))
       (mount demo_props demo_credentials)).
Proof.
  apply (proj2 (open_only_when_inputs_present
                  (mount demo_props demo_credentials)
                  (IframeLoad (VHost 1) (Some demo_api)))).
  reflexivity.
Defined.

(** ** How many calls a step makes *)

Lemma filter_none {A : Type} (P : A -> Prop) `{forall x, Decision (P x)} (l : list A) :
  Forall (fun x => ~ P x) l -> filter P l = [].
Proof.
  induction l as [|x l IH]; intros Hl; [reflexivity|].
  apply Forall_cons in Hl as [Hx Hl]. rewrite filter_cons_False by exact Hx. auto.
Qed.

Lemma filter_if_nil {A : Type} (P : A -> Prop) `{forall x, Decision (P x)}
    (b : bool) (l : list A) :
  (List.length (filter P (if b then l else [])) <= List.length (filter P l))%nat.
Proof. destruct b; simpl; lia. Qed.

Lemma destroy_calls_count (api : Api) (target : val) :
  (List.length (filter is_destroy (destroy_calls api target)) <= 1)%nat.
Proof.
  unfold destroy_calls. destruct (destroy api) as [f|]; [|simpl; lia].
  destruct (f _); simpl; lia.
Qed.

Lemma init_cleanup_calls_count (hook : option (InitDeps * InitCleanup)) :
  (List.length (filter is_destroy (init_cleanup_calls hook)) <= 1)%nat.
Proof.
  destruct hook as [[d [|api target]]|]; simpl; try lia. apply destroy_calls_count.
Qed.

Lemma init_effect_calls_count (p : Props) (st : State) :
  (List.length (filter is_init (init_effect_calls p st)) <= 1)%nat.
Proof.
  unfold init_effect_calls. destruct (StreetSmartApi st); [|simpl; lia].
  destruct (init_inputs_present p st); simpl; lia.
Qed.

Lemma open_effect_calls_count (p : Props) (st : State) :
  (List.length (filter is_open (open_effect_calls p st)) <= 1)%nat.
Proof.
  unfold open_effect_calls. destruct (StreetSmartApi st); [|simpl; lia].
  destruct (open_inputs_present p st); simpl; lia.
Qed.

Lemma kind_init_only (l : list Action) :
  Forall (fun a => is_init a) l ->
  Forall (fun a => ~ is_destroy a) l /\ Forall (fun a => ~ is_open a) l.
Proof.
  intros H. split; (eapply Forall_impl; [exact H|]);
    intros a Ha; destruct a; simpl in *; tauto.
Qed.

Lemma kind_open_only (l : list Action) :
  Forall (fun a => is_open a) l ->
  Forall (fun a => ~ is_destroy a) l /\ Forall (fun a => ~ is_init a) l.
Proof.
  intros H. split; (eapply Forall_impl; [exact H|]);
    intros a Ha; destruct a; simpl in *; tauto.
Qed.

Lemma kind_off_only (l : list Action) :
  Forall (fun a => is_off a) l ->
  Forall (fun a => ~ is_destroy a) l /\ Forall (fun a => ~ is_init a) l /\
  Forall (fun a => ~ is_open a) l.
Proof.
  intros H. repeat split; (eapply Forall_impl; [exact H|]);
    intros a Ha; destruct a; simpl in *; tauto.
Qed.

Lemma kind_handle_calls (i : Instance) (ev : Event) :
  Forall (fun a => ~ is_destroy a) (handle_calls i ev) /\
  Forall (fun a => ~ is_init a) (handle_calls i ev) /\
  Forall (fun a => ~ is_open a) (handle_calls i ev).
Proof.
  repeat split; (eapply Forall_impl; [apply handle_calls_kind|]); simpl; tauto.
Qed.

Lemma kind_init_cleanup_calls (hook : option (InitDeps * InitCleanup)) :
  Forall (fun a => ~ is_init a) (init_cleanup_calls hook) /\
  Forall (fun a => ~ is_open a) (init_cleanup_calls hook).
Proof.
  split; (eapply Forall_impl; [apply init_cleanup_calls_kind|]); simpl; tauto.
Qed.

(** X11: one step (an event and the commit that follows it) calls
    [init] at most once, [open] at most once and [destroy] at most once. *)
Theorem one_call_of_each_per_step (i : Instance) (ev : Event) :
  (List.length (filter is_init (emitted (fun j => step j ev) i)) <= 1)%nat /\
  (List.length (filter is_open (emitted (fun j => step j ev) i)) <= 1)%nat /\
  (List.length (filter is_destroy (emitted (fun j => step j ev) i)) <= 1)%nat.
Proof.
  rewrite emitted_step. unfold step_calls.
  destruct (uncaught i); [simpl; lia|].
  destruct (kind_handle_calls i ev) as (Hd & Hi & Ho).
  destruct (mounted i).
  2:{ rewrite (filter_none _ _ Hd), (filter_none _ _ Hi), (filter_none _ _ Ho).
      simpl. lia. }
  assert (Hunmount :
    (List.length (filter is_init (init_cleanup_calls (init_hook i) ++
        open_cleanup_calls (open_hook i) (open_vars i))) <= 1)%nat /\
    (List.length (filter is_open (init_cleanup_calls (init_hook i) ++
        open_cleanup_calls (open_hook i) (open_vars i))) <= 1)%nat /\
    (List.length (filter is_destroy (init_cleanup_calls (init_hook i) ++
        open_cleanup_calls (open_hook i) (open_vars i))) <= 1)%nat).
  { rewrite !filter_app, !length_app.
    destruct (kind_init_cleanup_calls (init_hook i)) as (K1 & K2).
    destruct (kind_off_only _ (open_cleanup_calls_kind (open_hook i) (open_vars i)))
      as (K3 & K4 & K5).
    rewrite (filter_none _ _ K1), (filter_none _ _ K2), (filter_none _ _ K3),
            (filter_none _ _ K4), (filter_none _ _ K5). simpl.
    pose proof (init_cleanup_calls_count (init_hook i)). lia. }
  assert (Hcommit :
    (List.length (filter is_init (handle_calls i ev ++ commit_calls (handle i ev)))
       <= 1)%nat /\
    (List.length (filter is_open (handle_calls i ev ++ commit_calls (handle i ev)))
       <= 1)%nat /\
    (List.length (filter is_destroy (handle_calls i ev ++ commit_calls (handle i ev)))
       <= 1)%nat).
  { set (j := handle i ev). unfold commit_calls.
    set (ic := deps_changed (init_hook j) (init_deps j)).
    set (oc := deps_changed (open_hook j) (open_deps j)).
    rewrite !filter_app, !length_app.
    rewrite (filter_none _ _ Hd), (filter_none _ _ Hi), (filter_none _ _ Ho).
    destruct (kind_init_cleanup_calls (init_hook j)) as (K1 & K2).
    destruct (kind_off_only _ (open_cleanup_calls_kind (open_hook j) (open_vars j)))
      as (K3 & K4 & K5).
    destruct (kind_init_only _ (init_effect_calls_kind (props j) (state j))) as (K6 & K7).
    destruct (kind_open_only _ (open_effect_calls_kind (props j) (state j))) as (K8 & K9).
    apply (Forall_if_nil _ ic) in K1, K2, K6, K7.
    apply (Forall_if_nil _ oc) in K3, K4, K5, K8, K9.
    rewrite (filter_none _ _ K1), (filter_none _ _ K2), (filter_none _ _ K3),
            (filter_none _ _ K4), (filter_none _ _ K5), (filter_none _ _ K6),
            (filter_none _ _ K7), (filter_none _ _ K8), (filter_none _ _ K9).
    simpl.
    pose proof (filter_if_nil is_destroy ic (init_cleanup_calls (init_hook j))).
    pose proof (init_cleanup_calls_count (init_hook j)).
    pose proof (filter_if_nil is_init ic (init_effect_calls (props j) (state j))).
    pose proof (init_effect_calls_count (props j) (state j)).
    pose proof (filter_if_nil is_open oc (open_effect_calls (props j) (state j))).
    pose proof (open_effect_calls_count (props j) (state j)).
    lia. }
  destruct ev; try exact Hcommit. exact Hunmount.
Qed.

(** ** Failures and their alerts *)





(** ** After the unmount *)

(** X13: once the component is unmounted no event changes its props or
    its state, and no step calls [init], [open], [destroy] or [off] any
    more; it stays unmounted. *)
Theorem unmounted_is_frozen (i : Instance) (ev : Event) :
  mounted i = false ->
  props (step i ev) = props i /\
  state (step i ev) = state i /\
  mounted (step i ev) = false /\
  Forall (fun a => ~ is_init a /\ ~ is_destroy a /\ ~ is_off a /\ ~ is_open a)
         (emitted (fun j => step j ev) i).
Proof.
  intros Hm.
  pose proof (handle_frame i ev) as (_ & _ & Hmj & _ & _). rewrite Hm in Hmj.
  assert (Hstep : step i ev = i \/ step i ev = handle i ev).
  { unfold step. destruct (uncaught i); [now left|].
    destruct ev; try (right; now apply commit_unmounted).
    left. unfold unmount. now rewrite Hm. }
  assert (Hprops : props (handle i ev) = props i).
  { destruct ev as [p|target api|c| | |err|inst result|inst err|]; simpl;
      rewrite ?Hm; simpl;
      unfold reload_click, init_then, init_catch, open_then, open_catch, settle,
             set_state;
      try case_bool_decide;
      destruct (init_pending i);
      try match goal with
          | |- context [first_viewer ?r] => destruct (first_viewer r)
          end;
      rewrite ?exec_emit, ?exec_emit2; simpl; rewrite ?Hm; simpl; rewrite ?Hm;
      reflexivity. }
  assert (Hstate : state (handle i ev) = state i).
  { now rewrite handle_state_eq, Hm. }
  split; [|split; [|split]].
  - destruct Hstep as [-> | ->]; [reflexivity|exact Hprops].
  - destruct Hstep as [-> | ->]; [reflexivity|exact Hstate].
  - destruct Hstep as [-> | ->]; [exact Hm|exact Hmj].
  - rewrite emitted_step. unfold step_calls. rewrite Hm.
    destruct (uncaught i); [apply Forall_nil_2|apply handle_calls_kind].
Qed.

Lemma unmounted_is_frozen_witness :
  state (step (run (mount demo_props demo_credentials)
                 [IframeLoad (VHost 1) (Some demo_api); Unmount])
              InitResolved)
  = state (run (mount demo_props demo_credentials)
             [IframeLoad (VHost 1) (Some demo_api); Unmount]).
Proof.
  apply (unmounted_is_frozen
           (run (mount demo_props demo_credentials)
              [IframeLoad (VHost 1) (Some demo_api); Unmount])
           InitResolved).
  reflexivity.
Defined.

(** ** A failed [open] can always be retried *)






Lemma open_inputs_present_initializing (p : Props) (st : State) (b : bool) :
  open_inputs_present p (setInitializing b st) = open_inputs_present p st.
Proof. reflexivity. Qed.





(** ** Every destroy follows an init on the same handle *)

Lemma init_hook_started_ext (i j : Instance) (acts : list Action) :
  init_hook_started i -> init_hook j = init_hook i -> log j = log i ++ acts ->
  init_hook_started j.
Proof.
  intros H Hh Hl d api target Hhook. rewrite Hh in Hhook. rewrite Hl.
  destruct (H d api target Hhook) as [options Hin].
  exists options. apply elem_of_app. now left.
Qed.

Lemma init_hook_started_run_init_effect (i : Instance) :
  init_hook_started (run_init_effect i).
Proof.
  intros d api target Hhook.
  destruct (init_inputs_present (props i) (state i)) eqn:Hg.
  - destruct (run_init_effect_present i Hg) as (a & Ha & Heq).
    rewrite Heq in Hhook |- *. simpl in Hhook |- *. injection Hhook as _ -> _.
    eexists. apply elem_of_app. right. now left.
  - rewrite (run_init_effect_absent i Hg) in Hhook. simpl in Hhook. discriminate.
Qed.

Lemma init_hook_started_commit (i : Instance) :
  init_hook_started i -> init_hook_started (commit i).
Proof.
  intros H. unfold commit. destruct (mounted i); [|exact H]. simpl.
  set (ic := deps_changed (init_hook i) (init_deps i)).
  set (oc := deps_changed (open_hook i) (open_deps i)).
  assert (H1 : init_hook_started (if ic then run_init_cleanup i else i)).
  { destruct ic; [|exact H]. rewrite run_init_cleanup_eq.
    now apply (init_hook_started_ext i _ (init_cleanup_calls (init_hook i))). }
  set (i1 := if ic then run_init_cleanup i else i) in *.
  assert (H2 : init_hook_started (if oc then run_open_cleanup i1 else i1)).
  { destruct oc; [|exact H1]. rewrite run_open_cleanup_eq.
    now apply (init_hook_started_ext i1 _
                 (open_cleanup_calls (open_hook i1) (open_vars i1))). }
  set (i2 := if oc then run_open_cleanup i1 else i1) in *.
  assert (H3 : init_hook_started (if ic then run_init_effect i2 else i2)).
  { destruct ic; [apply init_hook_started_run_init_effect|exact H2]. }
  set (i3 := if ic then run_init_effect i2 else i2) in *.
  destruct oc; [|exact H3].
  pose proof (run_open_effect_frame i3) as (_ & _ & Hh & _).
  exact (init_hook_started_ext i3 _ _ H3 Hh (run_open_effect_log i3)).
Qed.

Lemma init_hook_started_step (i : Instance) (ev : Event) :
  init_hook_started i -> init_hook_started (step i ev).
Proof.
  intros H. unfold step. destruct (uncaught i); [exact H|].
  assert (Hhandle : init_hook_started (handle i ev)).
  { pose proof (handle_frame i ev) as (Hh & _ & _ & _ & Hl).
    exact (init_hook_started_ext i _ _ H Hh Hl). }
  destruct ev; try (apply init_hook_started_commit; exact Hhandle).
  unfold unmount. destruct (mounted i); [|exact H].
  intros d api target Hhook. simpl in Hhook. discriminate.
Qed.

Lemma destroys_follow_inits_app (l calls : list Action) :
  destroys_follow_inits l ->
  (forall api arg, ApiDestroy api arg ∈ calls -> exists options, ApiInit api options ∈ l) ->
  destroys_follow_inits (l ++ calls).
Proof.
  intros Hl Hcalls before api arg after Heq.
  apply app_eq_inv in Heq as [(k & -> & Hk)|(k & -> & Hk)].
  - destruct k as [|x k]; simpl in Hk.
    + destruct (Hcalls api arg) as [options Hin]; [rewrite <- Hk; now left|].
      exists options. now rewrite app_nil_r in Hin.
    + injection Hk as <- _. apply (Hl before api arg k). reflexivity.
  - destruct (Hcalls api arg) as [options Hin].
    { rewrite Hk. apply elem_of_app. right. now left. }
    exists options. apply elem_of_app. now left.
Qed.

Lemma destroy_calls_handle (api : Api) (target : val) (a : nat) (arg : val) :
  ApiDestroy a arg ∈ destroy_calls api target -> a = api_id api.
Proof.
  unfold destroy_calls. destruct (destroy api) as [f|]; [|intros []%elem_of_nil].
  intros [Heq|Hin]%elem_of_cons; [now injection Heq|].
  destruct (f _); [|now apply elem_of_nil in Hin].
  apply list_elem_of_singleton in Hin. discriminate.
Qed.

Lemma step_destroy_source (i : Instance) (ev : Event) (a : nat) (arg : val) :
  ApiDestroy a arg ∈ step_calls i ev ->
  exists d api target,
    init_hook i = Some (d, InitDestroy api target) /\ a = api_id api.
Proof.
  intros Hin.
  apply step_calls_sources in Hin as (_ & [H|[[_ H]|[[_ H]|[(_ & _ & _ & H)|(_ & _ & _ & H)]]]]).
  - pose proof (handle_calls_kind i ev) as K. rewrite Forall_forall in K.
    apply K in H. simpl in H. tauto.
  - destruct (init_hook i) as [[d [|api target]]|]; simpl in H;
      try (now apply elem_of_nil in H).
    exists d, api, target. split; [reflexivity|].
    now apply (destroy_calls_handle api target a arg).
  - pose proof (open_cleanup_calls_kind (open_hook i) (open_vars (handle i ev))) as K.
    rewrite Forall_forall in K. apply K in H. contradiction.
  - pose proof (init_effect_calls_kind (props (handle i ev)) (state (handle i ev))) as K.
    rewrite Forall_forall in K. apply K in H. contradiction.
  - pose proof (open_effect_calls_kind (props (handle i ev)) (state (handle i ev))) as K.
    rewrite Forall_forall in K. apply K in H. contradiction.
Qed.

Lemma destroys_follow_inits_run (evs : list Event) : forall i,
  init_hook_started i -> destroys_follow_inits (log i) ->
  destroys_follow_inits (log (run i evs)).
Proof.
  induction evs as [|ev evs IH]; intros i Hs Hl; simpl; [exact Hl|].
  apply IH; [now apply init_hook_started_step|].
  rewrite step_log. apply destroys_follow_inits_app; [exact Hl|].
  intros a arg Hin.
  apply step_destroy_source in Hin as (d & api & target & Hhook & ->).
  exact (Hs d api target Hhook).
Qed.

(** X15: in the calls of a component, from its mount on, every
    [destroy] comes after an [init] on the same handle: nothing is
    destroyed that was not initialized. *)
Theorem destroy_only_after_init (i : Instance) :
  reachable i -> destroys_follow_inits (log i).
Proof.
  intros (p & stored & evs & ->).
  assert (Hmount : init_hook_started (mount p stored) /\
                   destroys_follow_inits (log (mount p stored))).
  { assert (H0 : init_hook_started (initial p stored)).
    { intros d api target Hhook. simpl in Hhook. discriminate. }
    split; [now apply init_hook_started_commit|].
    unfold mount. rewrite commit_log by reflexivity.
    apply destroys_follow_inits_app.
    { intros before api arg after Heq. simpl in Heq.
      now apply app_cons_not_nil in Heq. }
    intros api arg Hin. exfalso.
    assert (Hsrc : ApiDestroy api arg ∈ step_calls (initial p stored) (Render p)).
    { change (step_calls (initial p stored) (Render p))
        with ([] ++ commit_calls (initial p stored)).
      exact Hin. }
    apply step_destroy_source in Hsrc as (d & a & t & Hhook & _).
    simpl in Hhook. discriminate. }
  destruct Hmount as [Hs Hl]. now apply destroys_follow_inits_run.
Qed.

Lemma destroy_only_after_init_witness :
  destroys_follow_inits
    (log (run (mount demo_props demo_credentials)
            [IframeLoad (VHost 1) (Some demo_api); InitResolved;
             CredentialsChange None; Unmount])).
Proof.
  apply destroy_only_after_init.
  exists demo_props, demo_credentials,
    [IframeLoad (VHost 1) (Some demo_api); InitResolved;
     CredentialsChange None; Unmount].
  reflexivity.
Defined.

(** ** Events that leave the session alone *)

Lemma commit_calls_open_unchanged (i : Instance) :
  deps_changed (open_hook i) (open_deps i) = false ->
  commit_calls i
  = (if deps_changed (init_hook i) (init_deps i)
     then init_cleanup_calls (init_hook i) else []) ++
    (if deps_changed (init_hook i) (init_deps i)
     then init_effect_calls (props i) (state i) else []).
Proof. intros Hoc. unfold commit_calls. rewrite Hoc. simpl. now rewrite app_nil_r. Qed.

Lemma synced_open_unchanged (i : Instance) (ev : Event) :
  synced i -> mounted i = true ->
  open_deps (handle i ev) = open_deps i ->
  deps_changed (open_hook (handle i ev)) (open_deps (handle i ev)) = false.
Proof.
  intros Hs Hm Hdeps. destruct (Hs Hm) as [_ [c Hhook]].
  pose proof (handle_frame i ev) as (_ & -> & _).
  rewrite Hhook, Hdeps. simpl. apply bool_decide_eq_false. tauto.
Qed.

(** X16: an event that leaves the ApiHandle, [initialized] and the
    imageId as they are (a change of credentials, a click on reload, new
    props with the same imageId) neither unsubscribes nor opens: after
    such a re-initialization the image is not opened again. *)
Theorem reinit_does_not_reopen (i : Instance) (ev : Event) :
  ((forall c, open_deps (handle i (CredentialsChange c)) = open_deps i) /\
   open_deps (handle i ReloadClick) = open_deps i /\
   (forall p, imageId p = imageId (props i) ->
              open_deps (handle i (Render p)) = open_deps i)) /\
  (reachable i -> ev <> Unmount ->
   open_deps (handle i ev) = open_deps i ->
   Forall (fun a => ~ is_open a /\ ~ is_off a) (emitted (fun j => step j ev) i)).
Proof.
  split.
  - unfold open_deps. split; [|split].
    + intros c. rewrite handle_state_eq. simpl.
      unfold set_state. now destruct (mounted i).
    + rewrite handle_state_eq.
      assert (Hp : props (handle i ReloadClick) = props i).
      { simpl. destruct (_ && _); [|reflexivity]. unfold reload_click.
        now rewrite !(proj1 (set_state_frame _ _)). }
      rewrite Hp. destruct (mounted i); [|reflexivity].
      destruct (initialized (state i)) eqn:Hi; simpl; rewrite ?Hi; reflexivity.
    + intros p Hp. rewrite handle_state_eq. simpl.
      destruct (mounted i); simpl; [now rewrite Hp|reflexivity].
  - intros Hreach Hev Hdeps.
    destruct (reachable_invariants i Hreach) as [Hc Hs].
    rewrite emitted_step. unfold step_calls. rewrite (no_uncaught i Hc).
    assert (Hhandle : Forall (fun a => ~ is_open a /\ ~ is_off a) (handle_calls i ev)).
    { eapply Forall_impl; [apply handle_calls_kind|]. simpl. tauto. }
    destruct (mounted i) eqn:Hm; [|exact Hhandle].
    assert (Hcommit : Forall (fun a => ~ is_open a /\ ~ is_off a)
                        (handle_calls i ev ++ commit_calls (handle i ev))).
    { rewrite (commit_calls_open_unchanged _ (synced_open_unchanged i ev Hs Hm Hdeps)).
      apply Forall_app. split; [exact Hhandle|].
      apply Forall_app. split; apply Forall_if_nil.
      - eapply Forall_impl; [apply init_cleanup_calls_kind|]. simpl. tauto.
      - eapply Forall_impl; [apply init_effect_calls_kind|].
        intros a Ha. destruct a; simpl in *; tauto. }
    destruct ev; try exact Hcommit. contradiction.
Qed.

Lemma reinit_does_not_reopen_witness :
  Forall (fun a => ~ is_open a /\ ~ is_off a)
    (emitted (fun j => step j (CredentialsChange
                                 (Some {| cred_username := PStr "other";
                                          cred_password := PStr "secret" |})))
       (run (mount demo_props demo_credentials)
          [IframeLoad (VHost 1) (Some demo_api); InitResolved;
           OpenResolved 0 (Some [Some 3%nat])])).
Proof.
  apply (proj2 (reinit_does_not_reopen
                  (run (mount demo_props demo_credentials)
                     [IframeLoad (VHost 1) (Some demo_api); InitResolved;
                      OpenResolved 0 (Some [Some 3%nat])])
                  (CredentialsChange
                     (Some {| cred_username := PStr "other";
                              cred_password := PStr "secret" |})))).
  - exists demo_props, demo_credentials,
      [IframeLoad (VHost 1) (Some demo_api); InitResolved;
       OpenResolved 0 (Some [Some 3%nat])].
    reflexivity.
  - discriminate.
  - vm_compute. reflexivity.
Defined.

(** ** The completion of [open] *)

Lemma commit_nothing_changed (i : Instance) :
  deps_changed (init_hook i) (init_deps i) = false ->
  deps_changed (open_hook i) (open_deps i) = false ->
  commit i = i.
Proof.
  intros Hic Hoc. unfold commit. rewrite Hic, Hoc. now destruct (mounted i).
Qed.

Lemma handle_open_resolved (i : Instance) (inst : nat) (result : OpenResult) :
  props (handle i (OpenResolved inst result)) = props i /\
  state (handle i (OpenResolved inst result)) = state i.
Proof.
  simpl. case_bool_decide; [|now split]. unfold open_then.
  destruct (first_viewer result); [rewrite exec_emit2|]; now split.
Qed.

(** X17: when [open] resolves, the two handlers are subscribed on the
    first viewer of the result and nothing else is called; a falsy result
    or a falsy first element subscribes nothing and leaves the variables
    of the effect unassigned. The state is not touched. *)
Theorem open_completion_subscribes (i : Instance) (inst : nat) (result : OpenResult) :
  reachable i ->
  inst ∈ open_pending i ->
  emitted (fun j => step j (OpenResolved inst result)) i
  = match first_viewer result with
    | Some viewer => [ViewerOn viewer VIEW_CHANGE (ViewChange inst);
                      ViewerOn viewer RECORDING_CLICK (RecordingClick inst)]
    | None => []
    end /\
  state (step i (OpenResolved inst result)) = state i /\
  (first_viewer result = None ->
   open_vars (step i (OpenResolved inst result)) = open_vars i).
Proof.
  intros Hreach Hpending.
  destruct (reachable_invariants i Hreach) as [Hc Hs].
  pose proof (no_uncaught i Hc) as Hu.
  destruct (handle_open_resolved i inst result) as [Hp Hst].
  pose proof (handle_frame i (OpenResolved inst result)) as (Hih & Hoh & Hmj & _ & _).
  assert (Hcalls : handle_calls i (OpenResolved inst result)
                   = match first_viewer result with
                     | Some viewer => [ViewerOn viewer VIEW_CHANGE (ViewChange inst);
                                       ViewerOn viewer RECORDING_CLICK (RecordingClick inst)]
                     | None => []
                     end).
  { simpl. now rewrite bool_decide_true by exact Hpending. }
  assert (Hstep : step i (OpenResolved inst result) = handle i (OpenResolved inst result)).
  { unfold step. rewrite Hu.
    destruct (mounted i) eqn:Hm; [|apply commit_unmounted; congruence].
    destruct (Hs Hm) as [[c Hhook] [c' Hhook']].
    apply commit_nothing_changed.
    - rewrite Hih, Hhook. unfold init_deps. rewrite Hp, Hst. simpl.
      apply bool_decide_eq_false. tauto.
    - rewrite Hoh, Hhook'. unfold open_deps. rewrite Hp, Hst. simpl.
      apply bool_decide_eq_false. tauto. }
  split; [|split].
  - apply emitted_append. rewrite Hstep.
    pose proof (handle_frame i (OpenResolved inst result)) as (_ & _ & _ & _ & ->).
    now rewrite Hcalls.
  - now rewrite Hstep.
  - intros Hnone. rewrite Hstep. simpl.
    rewrite bool_decide_true by exact Hpending. unfold open_then. now rewrite Hnone.
Qed.

Lemma open_completion_subscribes_witness :
  emitted (fun j => step j (OpenResolved 0 (Some [None; Some 3%nat])))
    (run (mount demo_props demo_credentials)
       [IframeLoad (VHost 1) (Some demo_api); InitResolved]) = [].
Proof.
  apply (open_completion_subscribes
           (run (mount demo_props demo_credentials)
              [IframeLoad (VHost 1) (Some demo_api); InitResolved])
           0%nat (Some [None; Some 3%nat])).
  - exists demo_props, demo_credentials,
      [IframeLoad (VHost 1) (Some demo_api); InitResolved].
    reflexivity.
  - vm_compute. left.
Defined.

(** ** A completion of [open] that arrives after the teardown *)

Lemma run_log (evs : list Event) : forall i,
  exists calls, log (run i evs) = log i ++ calls.
Proof.
  induction evs as [|ev evs IH]; intros i; simpl.
  - exists []. now rewrite app_nil_r.
  - destruct (IH (step i ev)) as [calls Hcalls]. rewrite Hcalls, step_log.
    eexists. now rewrite <- app_assoc.
Qed.

Lemma emitted_run_cons (i : Instance) (ev : Event) (evs : list Event) :
  emitted (fun j => run j (ev :: evs)) i
  = step_calls i ev ++ emitted (fun j => run j evs) (step i ev).
Proof.
  unfold emitted. simpl. destruct (run_log evs (step i ev)) as [calls Hcalls].
  rewrite Hcalls, drop_app_length, step_log, <- app_assoc.
  now rewrite drop_app_length.
Qed.

Lemma reachable_step (i : Instance) (ev : Event) : reachable i -> reachable (step i ev).
Proof.
  intros (p & stored & evs & ->). exists p, stored, (evs ++ [ev]).
  unfold run. now rewrite fold_left_app.
Qed.

(** What a step unsubscribes belongs to the run whose cleanup React holds. *)
Lemma step_off_source (i : Instance) (ev : Event) (viewer : nat) (event : EventName)
    (handler : option Handler) :
  consistent i -> synced i ->
  ViewerOff viewer event handler ∈ step_calls i ev ->
  exists d inst,
    open_hook i = Some (d, OpenOff inst) /\ handler = Some (handler_of event inst).
Proof.
  intros Hc Hs Hin.
  destruct (step_calls_split i ev Hc Hs) as (front & back & Hsplit & Hfront & Hback).
  rewrite Hsplit in Hin.
  apply elem_of_app in Hin as [Hin|Hin].
  { rewrite Forall_forall in Hfront. apply Hfront in Hin. simpl in Hin. tauto. }
  apply elem_of_app in Hin as [Hin|Hin].
  2:{ rewrite Forall_forall in Hback. apply Hback in Hin. simpl in Hin. tauto. }
  destruct (open_teardown i ev); [|now apply elem_of_nil in Hin].
  apply open_cleanup_calls_inv in Hin
    as (d & inst & vars & Hhook & Hlook & Hviewer & _ & Hhandler).
  pose proof (open_vars_registered i Hc inst vars Hlook) as Hreg.
  destruct (vars_registered_viewer inst vars (log i) viewer Hreg Hviewer) as (Hvars & _).
  exists d, inst. split; [exact Hhook|].
  rewrite Hhandler, Hvars. now destruct event.
Qed.

Lemma handle_open_vars_length (i : Instance) (ev : Event) :
  List.length (open_vars (handle i ev)) = List.length (open_vars i).
Proof.
  destruct ev as [p|target api|c| | |err|k result|k err|]; simpl;
    unfold reload_click, init_then, init_catch, open_then, open_catch;
    try case_bool_decide;
    destruct (init_pending i);
    try match goal with
        | |- context [first_viewer ?r] => destruct (first_viewer r)
        end;
    repeat match goal with
           | |- context [if ?c then _ else _] => destruct c
           end;
    rewrite ?exec_emit, ?exec_emit2; simpl;
    rewrite ?(proj1 (proj2 (proj2 (proj2 (set_state_frame _ _))))); simpl;
    rewrite ?(proj1 (proj2 (proj2 (proj2 (set_state_frame _ _))))); simpl;
    rewrite ?length_insert; reflexivity.
Qed.

Lemma commit_open_hook (i : Instance) :
  (open_hook (commit i) = open_hook i /\
   (List.length (open_vars i) <= List.length (open_vars (commit i)))%nat) \/
  (exists d c,
     open_hook (commit i) = Some (d, c) /\
     (c = OpenNoop \/ c = OpenOff (List.length (open_vars i))) /\
     (List.length (open_vars i) <= List.length (open_vars (commit i)))%nat).
Proof.
  destruct (mounted i) eqn:Hm;
    [|rewrite (commit_unmounted i Hm); left; split; [reflexivity|lia]].
  unfold commit. rewrite Hm. simpl.
  set (ic := deps_changed (init_hook i) (init_deps i)).
  set (i2 := if deps_changed (open_hook i) (open_deps i)
             then run_open_cleanup (if ic then run_init_cleanup i else i)
             else (if ic then run_init_cleanup i else i)).
  set (i3 := if ic then run_init_effect i2 else i2).
  assert (H3 : open_hook i3 = open_hook i /\ open_vars i3 = open_vars i).
  { subst i3 i2. destruct ic, (deps_changed (open_hook i) (open_deps i));
      repeat match goal with
      | |- context [run_init_effect ?j] =>
          pose proof (run_init_effect_frame j) as (_ & -> & -> & _)
      end;
      rewrite ?run_open_cleanup_eq, ?run_init_cleanup_eq; now split. }
  destruct H3 as [Hh Hv].
  destruct (deps_changed (open_hook i) (open_deps i)).
  2:{ left. rewrite Hh, Hv. split; [reflexivity|lia]. }
  right. destruct (open_inputs_present (props i3) (state i3)) eqn:Hg.
  - destruct (run_open_effect_present i3 Hg) as (api & _ & ->). simpl.
    rewrite Hv. do 2 eexists. split; [reflexivity|]. split; [now right|].
    rewrite length_app. simpl. lia.
  - rewrite (run_open_effect_absent i3 Hg). simpl. rewrite Hv.
    do 2 eexists. split; [reflexivity|]. split; [now left|lia].
Qed.

Lemma torn_down_step (i : Instance) (ev : Event) (inst : nat) :
  (inst < List.length (open_vars i))%nat ->
  (forall d, open_hook i <> Some (d, OpenOff inst)) ->
  (inst < List.length (open_vars (step i ev)))%nat /\
  (forall d, open_hook (step i ev) <> Some (d, OpenOff inst)).
Proof.
  intros Hlt Hhook. unfold step. destruct (uncaught i); [now split|].
  pose proof (handle_frame i ev) as (_ & Hoh & _).
  pose proof (handle_open_vars_length i ev) as Hlen.
  assert (Hcommit : (inst < List.length (open_vars (commit (handle i ev))))%nat /\
                    (forall d, open_hook (commit (handle i ev)) <> Some (d, OpenOff inst))).
  { destruct (commit_open_hook (handle i ev))
      as [[Hh Hle]|(d' & c & Hh & Hc & Hle)].
    - split; [lia|]. rewrite Hh, Hoh. exact Hhook.
    - split; [lia|]. rewrite Hh. intros d [= _ ->].
      destruct Hc as [Hc|Hc]; [discriminate|]. injection Hc as Hc. lia. }
  destruct ev; try exact Hcommit.
  unfold unmount. destruct (mounted i); [|now split]. simpl.
  rewrite run_open_cleanup_eq, run_init_cleanup_eq. simpl. split; [exact Hlt|].
  discriminate.
Qed.

(** X18: the cleanup of a run of the open-image effect is its one chance
    to unsubscribe: for a run whose cleanup React no longer holds, no
    later step ever calls [off] with one of its two handlers, so handlers
    that a late completion of [open] subscribes stay subscribed. *)
Theorem torn_down_run_never_unsubscribed (evs : list Event) : forall (i : Instance)
    (inst viewer : nat) (event : EventName) (handler : Handler),
  reachable i ->
  (inst < List.length (open_vars i))%nat ->
  (forall d, open_hook i <> Some (d, OpenOff inst)) ->
  handler = ViewChange inst \/ handler = RecordingClick inst ->
  ViewerOff viewer event (Some handler) ∉ emitted (fun j => run j evs) i.
Proof.
  induction evs as [|ev evs IH]; intros i inst viewer event handler Hreach Hlt Hhook Hh.
  - unfold emitted. simpl. rewrite drop_all. apply not_elem_of_nil.
  - rewrite emitted_run_cons. intros [Hin|Hin]%elem_of_app.
    + destruct (reachable_invariants i Hreach) as [Hc Hs].
      apply (step_off_source i ev _ _ _ Hc Hs) in Hin as (d & k & Hk & Heq).
      assert (k = inst).
      { destruct Hh as [-> | ->]; destruct event; simpl in Heq; congruence. }
      subst k. exact (Hhook d Hk).
    + destruct (torn_down_step i ev inst Hlt Hhook) as [Hlt' Hhook'].
      exact (IH (step i ev) inst viewer event handler
                (reachable_step i ev Hreach) Hlt' Hhook' Hh Hin).
Qed.

Lemma torn_down_run_never_unsubscribed_witness :
  ViewerOff 3 VIEW_CHANGE (Some (ViewChange 0))
  ∉ emitted (fun j => run j [OpenResolved 0 (Some [Some 3%nat]); Unmount])
      (run (mount demo_props demo_credentials)
         [IframeLoad (VHost 1) (Some demo_api); InitResolved;
          Render {| apiKey := PStr "key"; imageId := PStr "img-2";
                    mapPointVisible := PBool true; initOptions := VObj ∅ |}]).
Proof.
  apply (torn_down_run_never_unsubscribed
           [OpenResolved 0 (Some [Some 3%nat]); Unmount]
           (run (mount demo_props demo_credentials)
              [IframeLoad (VHost 1) (Some demo_api); InitResolved;
               Render {| apiKey := PStr "key"; imageId := PStr "img-2";
                         mapPointVisible := PBool true; initOptions := VObj ∅ |}])
           0%nat 3%nat VIEW_CHANGE (ViewChange 0)).
  - exists demo_props, demo_credentials,
      [IframeLoad (VHost 1) (Some demo_api); InitResolved;
       Render {| apiKey := PStr "key"; imageId := PStr "img-2";
                 mapPointVisible := PBool true; initOptions := VObj ∅ |}].
    reflexivity.
  - vm_compute. lia.
  - intros d. vm_compute. discriminate.
  - left. reflexivity.
Defined.

(** ** Renders that change no dependency of the initialization *)

Lemma synced_init_unchanged (i : Instance) (ev : Event) :
  synced i -> mounted i = true ->
  init_deps (handle i ev) = init_deps i ->
  deps_changed (init_hook (handle i ev)) (init_deps (handle i ev)) = false.
Proof.
  intros Hs Hm Hdeps. destruct (Hs Hm) as [[c Hhook] _].
  pose proof (handle_frame i ev) as (-> & _).
  rewrite Hhook, Hdeps. simpl. apply bool_decide_eq_false. tauto.
Qed.

(** X19: a step for which none of the five dependencies of the
    initialization effect changed (ApiHandle, username, password, API
    key, reload counter) calls neither [destroy] nor [init]; and in every
    step no [destroy] comes after an [init]: the previous initialization
    is torn down before the next one is started. *)
Theorem init_effect_runs_on_change_only (i : Instance) (ev : Event) :
  (reachable i -> ev <> Unmount ->
   init_deps (handle i ev) = init_deps i ->
   Forall (fun a => ~ is_init a /\ ~ is_destroy a) (emitted (fun j => step j ev) i)) /\
  (forall pre a post,
     emitted (fun j => step j ev) i = pre ++ a :: post ->
     is_init a -> Forall (fun b => ~ is_destroy b) post).
Proof.
  assert (Hhandle : Forall (fun a => ~ is_init a /\ ~ is_destroy a) (handle_calls i ev)).
  { eapply Forall_impl; [apply handle_calls_kind|]. simpl. tauto. }
  assert (Hoff : forall hook vars,
            Forall (fun a => ~ is_init a /\ ~ is_destroy a) (open_cleanup_calls hook vars)).
  { intros hook vars. eapply Forall_impl; [apply open_cleanup_calls_kind|].
    intros a Ha. destruct a; simpl in *; tauto. }
  assert (Hopen : forall p st,
            Forall (fun a => ~ is_init a /\ ~ is_destroy a) (open_effect_calls p st)).
  { intros p st. eapply Forall_impl; [apply open_effect_calls_kind|].
    intros a Ha. destruct a; simpl in *; tauto. }
  split.
  - intros Hreach Hev Hdeps.
    destruct (reachable_invariants i Hreach) as [Hc Hs].
    rewrite emitted_step. unfold step_calls. rewrite (no_uncaught i Hc).
    destruct (mounted i) eqn:Hm; [|exact Hhandle].
    assert (Hcommit : Forall (fun a => ~ is_init a /\ ~ is_destroy a)
                        (handle_calls i ev ++ commit_calls (handle i ev))).
    { unfold commit_calls. rewrite (synced_init_unchanged i ev Hs Hm Hdeps). simpl.
      apply Forall_app. split; [exact Hhandle|].
      apply Forall_app. split; [apply Forall_if_nil, Hoff|].
      apply Forall_if_nil, Hopen. }
    destruct ev; try exact Hcommit. contradiction.
  - intros pre a post. rewrite emitted_step. unfold step_calls.
    assert (Hnone : forall l, Forall (fun b => ~ is_init b) l ->
                      l = pre ++ a :: post -> is_init a ->
                      Forall (fun b => ~ is_destroy b) post).
    { intros l Hl -> Ha. apply Forall_app in Hl as [_ Hl].
      apply Forall_cons in Hl as [Hna _]. contradiction. }
    assert (Hhandle' : Forall (fun b => ~ is_init b) (handle_calls i ev)).
    { eapply Forall_impl; [exact Hhandle|]. simpl. tauto. }
    destruct (uncaught i); [apply Hnone, Forall_nil_2|].
    destruct (mounted i); [|apply Hnone, Hhandle'].
    assert (Hcommit : handle_calls i ev ++ commit_calls (handle i ev) = pre ++ a :: post ->
                      is_init a -> Forall (fun b => ~ is_destroy b) post).
    { unfold commit_calls. set (j := handle i ev).
      set (A1 := if deps_changed (init_hook j) (init_deps j)
                 then init_cleanup_calls (init_hook j) else []).
      set (A2 := if deps_changed (open_hook j) (open_deps j)
                 then open_cleanup_calls (open_hook j) (open_vars j) else []).
      set (A3 := if deps_changed (init_hook j) (init_deps j)
                 then init_effect_calls (props j) (state j) else []).
      set (A4 := if deps_changed (open_hook j) (open_deps j)
                 then open_effect_calls (props j) (state j) else []).
      replace (handle_calls i ev ++ A1 ++ A2 ++ A3 ++ A4)
        with ((handle_calls i ev ++ A1 ++ A2) ++ (A3 ++ A4))
        by now rewrite <- !app_assoc.
      intros Heq Ha.
      refine (calls_after_open is_init (fun b => ~ is_destroy b) _ _ _ _ _ _ _ Ha Heq).
      - apply Forall_app. split; [exact Hhandle'|].
        apply Forall_app. split; apply Forall_if_nil.
        + eapply Forall_impl; [apply init_cleanup_calls_kind|]. simpl. tauto.
        + eapply Forall_impl; [apply Hoff|]. simpl. tauto.
      - apply Forall_app. split; apply Forall_if_nil.
        + eapply Forall_impl; [apply init_effect_calls_kind|].
          intros b Hb. destruct b; simpl in *; tauto.
        + eapply Forall_impl; [apply Hopen|]. simpl. tauto. }
    destruct ev; try exact Hcommit.
    apply Hnone. apply Forall_app. split.
    + eapply Forall_impl; [apply init_cleanup_calls_kind|]. simpl. tauto.
    + eapply Forall_impl; [apply Hoff|]. simpl. tauto.
Qed.

Lemma init_effect_runs_on_change_only_witness :
  Forall (fun a => ~ is_init a /\ ~ is_destroy a)
    (emitted (fun j => step j (Render {| apiKey := PStr "key"; imageId := PStr "img-2";
                                         mapPointVisible := PBool false;
                                         initOptions := VObj ∅ |}))
       (run (mount demo_props demo_credentials)
          [IframeLoad (VHost 1) (Some demo_api); InitResolved])).
Proof.
  apply (proj1 (init_effect_runs_on_change_only
                  (run (mount demo_props demo_credentials)
                     [IframeLoad (VHost 1) (Some demo_api); InitResolved])
                  (Render {| apiKey := PStr "key"; imageId := PStr "img-2";
                             mapPointVisible := PBool false; initOptions := VObj ∅ |}))).
  - exists demo_props, demo_credentials,
      [IframeLoad (VHost 1) (Some demo_api); InitResolved].
    reflexivity.
  - discriminate.
  - vm_compute. reflexivity.
Defined.

(** * Properties of the export tool of a table widget *)

Lemma is_one_not_nullish (resData : val) :
  Widget.is_one (opt_get resData "total") = true -> nullish resData = false.
Proof. destruct resData as [[| | | |]| | |]; simpl; congruence. Qed.

Lemma first_not_nullish (resources : val) :
  nullish (opt_idx resources 0) = false -> nullish resources = false.
Proof. destruct resources as [[| | | |]| | |]; simpl; congruence. Qed.

(** X20: the callback on the dataset answer opens a window exactly when
    the answer's [total] is the number 1 and [resources[0]] is there:
    then it logs twice and opens [resources[0].download_file_url] (which
    may be undefined) in a new tab, once.  With [total] 1 and no
    [resources[0]] it throws after the first log; with any other
    [total] it does nothing. *)
Theorem export_response_opens_download (resData : val) :
  let total := opt_get resData "total" in
  let first := opt_idx (opt_get resData "resources") 0 in
  let url := opt_get first "download_file_url" in
  (Widget.is_one total = true -> nullish first = false ->
   Widget.onResponse resData =
     ([Widget.ConsoleLog [str "resData"; resData];
       Widget.ConsoleLog [str "downloadFileUrl"; url];
       Widget.WindowOpen url "_blank"], Normal tt)) /\
  (Widget.is_one total = true -> nullish first = true ->
   exists what,
     Widget.onResponse resData =
       ([Widget.ConsoleLog [str "resData"; resData]], Throw (TypeError what))) /\
  (Widget.is_one total = false -> nullish resData = false ->
   Widget.onResponse resData = ([], Normal tt)) /\
  (nullish resData = true ->
   exists what, Widget.onResponse resData = ([], Throw (TypeError what))).
Proof.
  intros total first url. subst total first url.
  unfold Widget.onResponse, Widget.get, Widget.get_idx.
  split; [|split; [|split]].
  - intros Hone Hfirst.
    rewrite (is_one_not_nullish _ Hone), Hone.
    rewrite (first_not_nullish _ Hfirst), Hfirst. reflexivity.
  - intros Hone Hfirst.
    rewrite (is_one_not_nullish _ Hone), Hone.
    destruct (nullish (opt_get resData "resources")); [eauto|].
    rewrite Hfirst. eauto.
  - intros Hone Hres. rewrite Hres, Hone. reflexivity.
  - intros Hres. rewrite Hres. eauto.
Qed.

Lemma export_response_opens_download_witness :
  Widget.onResponse
    (VObj {[ "total" := num 1;
             "resources" := VArr [VObj {[ "download_file_url" := str "/download/roads.csv" ]}] ]}) =
  ([Widget.ConsoleLog
      [str "resData";
       VObj {[ "total" := num 1;
               "resources" := VArr [VObj {[ "download_file_url" := str "/download/roads.csv" ]}] ]}];
    Widget.ConsoleLog [str "downloadFileUrl"; str "/download/roads.csv"];
    Widget.WindowOpen (str "/download/roads.csv") "_blank"], Normal tt).
Proof.
  rewrite (proj1 (export_response_opens_download
                    (VObj {[ "total" := num 1;
                             "resources" :=
                               VArr [VObj {[ "download_file_url" := str "/download/roads.csv" ]}] ]})))
    by (vm_compute; reflexivity).
  vm_compute. reflexivity.
Defined.

(** X21: in the version with [downloadUrl], the export item is disabled
    at every render and a click on it never opens a window, whatever the
    tools, the layer and the answer of the server: [downloadUrl] returns
    the empty string before the answer is there.  The render and the
    click each send the dataset request once, and the tools that were
    there stay in front of the item, in their order. *)
Theorem export_with_downloadUrl_is_dead {T : Type} (widgetTools : option (list T))
    (search : string) :
  let '(calls, tools) := Widget.props_with_downloadUrl widgetTools search in
  calls = [Widget.Fetch (Widget.datasetUrl search)] /\
  (exists item, tools = (Widget.Existing <$> default [] widgetTools) ++ [Widget.Export item] /\
                Widget.disabled item = true) /\
  Widget.onClick_downloadUrl search = [Widget.Fetch (Widget.datasetUrl search)] /\
  Forall (fun c => ~ Widget.is_window_open c) (calls ++ Widget.onClick_downloadUrl search).
Proof.
  unfold Widget.props_with_downloadUrl, Widget.onClick_downloadUrl, Widget.downloadUrl,
    Widget.withTool.
  simpl. repeat split.
  - eexists. split; reflexivity.
  - repeat constructor; simpl; tauto.
Qed.

(** X22: the two versions read the answer alike: the value the callback
    of [downloadUrl] returns is the address the other version opens, and
    they throw on the same answers.  Only the first one uses it. *)
Theorem downloadUrl_then_agrees (resData : val) :
  match Widget.downloadUrl_then resData with
  | Normal url =>
      snd (Widget.onResponse resData) = Normal tt /\
      filter Widget.is_window_open (fst (Widget.onResponse resData)) =
        (if Widget.is_one (opt_get resData "total")
         then [Widget.WindowOpen url "_blank"] else [])
  | Throw e =>
      snd (Widget.onResponse resData) = Throw e /\
      filter Widget.is_window_open (fst (Widget.onResponse resData)) = []
  end.
Proof.
  unfold Widget.downloadUrl_then, Widget.onResponse, Widget.get, Widget.get_idx.
  destruct (nullish resData); [split; reflexivity|].
  destruct (Widget.is_one (opt_get resData "total")); [|split; reflexivity].
  destruct (nullish (opt_get resData "resources")); [split; reflexivity|].
  destruct (nullish (opt_idx (opt_get resData "resources") 0)); split; reflexivity.
Qed.
